(** * Power iteration ([week3/main.py]): a shallow embedding

    [power_method(A, x0, eps, max_iter)] computes an estimate of the dominant
    eigenvalue of [A] with numpy.  The embedding keeps the three things the
    Python code works with:

    - _scalars_: numpy's float64, abstracted by the class [Scalar] (the
      arithmetic the source calls: [+ - * /], [sqrt], [<], [>=], [isnan]).
      Its instance [float_Scalar] is IEEE-754 binary64 (Rocq's primitive
      floats).  The theorems that do not look at values leave the scalar
      type open; every theorem on values (NaN, infinities, comparisons) is
      stated on binary64;
    - _arrays_: an [ndarray] is a shape and a reference to a buffer in a heap
      of buffers, so views ([np.squeeze]) alias the caller's data and every
      arithmetic numpy call allocates its result;
    - _control_: a state-and-exception monad [M]; [raise ValueError(...)] and
      numpy's own [ValueError]s are the exceptions.  The state also carries a
      ghost [trace] of the numpy calls, loop-body entries and convergence
      tests, in program order.

    What the embedding fixes about numpy: sums ([dot], [@]) multiply, then
    add, from 0 left to right (a BLAS may order or fuse them otherwise, which
    can change last digits and nothing about shapes, NaN or infinities); the
    error state is numpy's default, in which a division by zero warns and
    does not raise; buffers hold their elements in row-major order, strides
    are not modelled.

    The file has the embedding first, then the vocabulary of the statements
    and the inputs of the concrete calls, then the lemmas and the theorems on
    the claims C1 to C10, the concrete calls, and last the further
    properties of [power_method] (edge inputs, NaN, the largest quotient,
    the cap) with their concrete calls. *)

From Stdlib Require Import String List ZArith Bool Arith Lia.
From Stdlib Require Import Floats.
Import ListNotations.

Set Implicit Arguments.

(** ** Scalars *)

Class Scalar (T : Type) : Type := {
  zero : T;
  one : T;
  add : T -> T -> T;
  sub : T -> T -> T;
  mul : T -> T -> T;
  div : T -> T -> T;
  sqrt : T -> T;
  ltb : T -> T -> bool;     (* a < b  *)
  leb : T -> T -> bool;     (* a <= b *)
  isnan : T -> bool
}.

(** numpy's float64. *)
#[export] Instance float_Scalar : Scalar float := {
  zero := PrimFloat.zero;
  one := PrimFloat.one;
  add := PrimFloat.add;
  sub := PrimFloat.sub;
  mul := PrimFloat.mul;
  div := PrimFloat.div;
  sqrt := PrimFloat.sqrt;
  ltb := PrimFloat.ltb;
  leb := PrimFloat.leb;
  isnan := PrimFloat.is_nan
}.

(** ** Exceptions *)

(** The [ValueError]s numpy itself raises on the paths of [power_method]. *)
Inductive numpy_error : Type :=
| MatmulMismatch (n k : nat)
    (* matmul: Input operand 1 has a mismatch in its core dimension 0 *)
| BroadcastMismatch (a b : nat)
    (* operands could not be broadcast together with shapes (a,) (b,) *)
| ZeroSizeReduction.
    (* zero-size array to reduction operation maximum which has no identity *)

Inductive exn : Type :=
| ValueError (msg : string)          (* raised by [power_method] itself *)
| NumpyValueError (e : numpy_error). (* raised inside a numpy call *)

Definition msg_A : string := "`A` must be a 2D matrix.".
Definition msg_x0 : string := "The shape of `x0` must be (n, 1) or (n,).".

(** A shape error: every [ValueError] above except the empty reduction. *)
Definition is_shape_error (e : exn) : bool :=
  match e with
  | ValueError _ => true
  | NumpyValueError (MatmulMismatch _ _) => true
  | NumpyValueError (BroadcastMismatch _ _) => true
  | NumpyValueError ZeroSizeReduction => false
  end.

(** ** Arrays, heap and trace *)

Definition loc := nat.

(** An array object: its [shape] and the buffer it views.  Elements are kept
    in row-major order. *)
Record ndarray : Type := mk_ndarray { shape : list nat; base : loc }.

Definition ndim (a : ndarray) : nat := length (shape a).

(** The shape [np.squeeze] gives: the axes of length one are dropped. *)
Definition squeezed (sh : list nat) : list nat :=
  filter (fun d => negb (d =? 1)) sh.

Inductive event : Type :=
| Call_ones (n : nat)
| Call_squeeze (a : ndarray)
| Call_matmul (a x : ndarray)
| Call_norm (v : ndarray)
| Call_divide_scalar (v : ndarray)
| Call_subtract (a b : ndarray)
| Call_divide (a b : ndarray)
| Call_max (v : ndarray)
| Iter                      (* the body of the [for] loop is entered *)
| Test (converged : bool).  (* the outcome of [error < eps] *)

Definition is_iter (e : event) : bool :=
  match e with Iter => true | _ => false end.

Definition is_matmul (e : event) : bool :=
  match e with Call_matmul _ _ => true | _ => false end.

(** The numpy calls that do arithmetic on array elements. *)
Definition is_arith (e : event) : bool :=
  match e with
  | Call_matmul _ _ | Call_norm _ | Call_divide_scalar _
  | Call_subtract _ _ | Call_divide _ _ | Call_max _ => true
  | _ => false
  end.

Definition iterations (tr : list event) : nat := length (filter is_iter tr).
Definition matmuls (tr : list event) : nat := length (filter is_matmul tr).

Fixpoint tests (tr : list event) : list bool :=
  match tr with
  | [] => []
  | Test b :: tr' => b :: tests tr'
  | _ :: tr' => tests tr'
  end.

Section PowerMethod.

Context {T : Type} `{Scalar T}.

Record state : Type := mk_state { heap : list (list T); trace : list event }.

(** The elements an array views.  (A reference outside the heap, which no
    array of the caller or of numpy is, reads as empty.) *)
Definition read (s : state) (a : ndarray) : list T := nth (base a) (heap s) [].

(** ** The monad *)

Definition M (X : Type) : Type := state -> (exn + X) * state.

Definition ret {X} (x : X) : M X := fun s => (inr x, s).

Definition raise {X} (e : exn) : M X := fun s => (inl e, s).

Definition bind {X Y} (m : M X) (f : X -> M Y) : M Y :=
  fun s =>
    match m s with
    | (inl e, s') => (inl e, s')
    | (inr x, s') => f x s'
    end.

Notation "x <- m ;; k" := (bind m (fun x => k))
  (at level 61, m at next level, right associativity).
Notation "m ;;; k" := (bind m (fun _ => k))
  (at level 61, right associativity).

Definition log (e : event) : M unit :=
  fun s => (inr tt, mk_state (heap s) (trace s ++ [e])).

Definition get_data (a : ndarray) : M (list T) := fun s => (inr (read s a), s).

(** A new array of shape [sh] over a fresh buffer holding [d]. *)
Definition alloc (sh : list nat) (d : list T) : M ndarray :=
  fun s => (inr (mk_ndarray sh (length (heap s))),
            mk_state (heap s ++ [d]) (trace s)).

(** ** The numpy calls, on data *)

Definition dot (u v : list T) : T :=
  fold_left (fun acc p => add acc (mul (fst p) (snd p))) (combine u v) zero.

(** [np.linalg.norm] of a 1-D real array: [sqrt(dot(x, x))]. *)
Definition norm (v : list T) : T := sqrt (dot v v).

(** Row [i] of a row-major buffer with rows of length [n]. *)
Definition row (n : nat) (a : list T) (i : nat) : list T :=
  firstn n (skipn (i * n) a).

(** [A @ x] for [A] of shape (m, n) and [x] of shape (n,). *)
Definition matvec (m n : nat) (a x : list T) : list T :=
  map (fun i => dot (row n a i) x) (seq 0 m).

Definition scale_div (v : list T) (c : T) : list T := map (fun a => div a c) v.

Fixpoint zip_with (f : T -> T -> T) (u v : list T) : list T :=
  match u, v with
  | a :: u', b :: v' => f a b :: zip_with f u' v'
  | _, _ => []
  end.

(** [np.maximum]: [(a >= b || isnan(a)) ? a : b]. *)
Definition np_maximum (a b : T) : T := if leb b a || isnan a then a else b.

(** [np.maximum.reduce] over a non-empty array. *)
Definition max_reduce (a : T) (v : list T) : T := fold_left np_maximum v a.

(** ** The numpy calls, on arrays *)

(** [np.ones(shape=(n))]. *)
Definition np_ones (n : nat) : M ndarray :=
  log (Call_ones n) ;;; alloc [n] (repeat one n).

(** [np.squeeze(a)]: the axes of length one are removed; the result is a view
    of the same buffer. *)
Definition np_squeeze (a : ndarray) : M ndarray :=
  log (Call_squeeze a) ;;;
  ret (mk_ndarray (squeezed (shape a)) (base a)).

(** [a @ x] with [a] two-dimensional and [x] one-dimensional, the only use
    the source makes of [@]: the inner dimensions must agree.  Operands of
    another rank do not reach this call from [power_method]; they are given
    the mismatch error too. *)
Definition np_matmul (a x : ndarray) : M ndarray :=
  log (Call_matmul a x) ;;;
  match shape a, shape x with
  | [m; n], [k] =>
      if n =? k then
        da <- get_data a ;; dx <- get_data x ;; alloc [m] (matvec m n da dx)
      else raise (NumpyValueError (MatmulMismatch n k))
  | _, _ => raise (NumpyValueError (MatmulMismatch (ndim a) (ndim x)))
  end.

(** [np.linalg.norm(v)]; the result is a scalar, not an array. *)
Definition np_linalg_norm (v : ndarray) : M T :=
  log (Call_norm v) ;;; d <- get_data v ;; ret (norm d).

(** [v / c] for an array [v] and a scalar [c].  Under numpy's default error
    state a zero divisor only warns: the quotient is whatever the scalar
    division gives. *)
Definition np_divide_scalar (v : ndarray) (c : T) : M ndarray :=
  log (Call_divide_scalar v) ;;;
  d <- get_data v ;; alloc (shape v) (scale_div d c).

(** An element-wise binary operation on two one-dimensional arrays, with
    numpy's broadcasting: equal lengths, or one of them of length one. *)
Definition broadcast (f : T -> T -> T) (a b : ndarray) : M ndarray :=
  match shape a, shape b with
  | [n], [k] =>
      da <- get_data a ;; db <- get_data b ;;
      if n =? k then alloc [n] (zip_with f da db)
      else if n =? 1 then alloc [k] (map (f (nth 0 da zero)) db)
      else if k =? 1 then alloc [n] (map (fun p => f p (nth 0 db zero)) da)
      else raise (NumpyValueError (BroadcastMismatch n k))
  | _, _ => raise (NumpyValueError (BroadcastMismatch (ndim a) (ndim b)))
  end.

(** [a - b]. *)
Definition np_subtract (a b : ndarray) : M ndarray :=
  log (Call_subtract a b) ;;; broadcast sub a b.

(** [a / b], element-wise; a zero divisor only warns. *)
Definition np_divide (a b : ndarray) : M ndarray :=
  log (Call_divide a b) ;;; broadcast div a b.

(** [np.max(v)]: an empty array has no maximum. *)
Definition np_max (v : ndarray) : M T :=
  log (Call_max v) ;;;
  d <- get_data v ;;
  match d with
  | [] => raise (NumpyValueError ZeroSizeReduction)
  | a :: d' => ret (max_reduce a d')
  end.

(** ** [power_method] *)

(** Lines 36-41: the initial vector. *)
Definition initial_vector (A : ndarray) (x0 : option ndarray) : M ndarray :=
  match x0 with
  | None => np_ones (nth 1 (shape A) 0)
  | Some x0 =>
      x0 <- np_squeeze x0 ;;
      if negb (ndim x0 =? 1) then raise (ValueError msg_x0) else ret x0
  end.

(** Lines 44-50: [for _ in range(max_iter)] with its [break]; [n] is the
    number of values [range(max_iter)] still has to give. *)
Fixpoint power_loop (A : ndarray) (eps : T) (n : nat) (x_i : ndarray)
  : M ndarray :=
  match n with
  | O => ret x_i
  | S n' =>
      log Iter ;;;
      y_i <- np_matmul A x_i ;;
      nrm <- np_linalg_norm y_i ;;
      x_ip1 <- np_divide_scalar y_i nrm ;;
      d <- np_subtract x_ip1 x_i ;;
      error <- np_linalg_norm d ;;
      log (Test (ltb error eps)) ;;;
      if ltb error eps then ret x_ip1 else power_loop A eps n' x_ip1
  end.

(** Lines 52-53: the eigenvalue estimate and the returned pair. *)
Definition eigen_estimate (A x_i : ndarray) : M (T * ndarray) :=
  Ax <- np_matmul A x_i ;;
  q <- np_divide Ax x_i ;;
  eigenvalue <- np_max q ;;
  ret (eigenvalue, x_i).

Definition power_method (A : ndarray) (x0 : option ndarray) (eps : T)
    (max_iter : Z) : M (T * ndarray) :=
  if negb (ndim A =? 2) then raise (ValueError msg_A)
  else
    x0 <- initial_vector A x0 ;;
    x_i <- power_loop A eps (Z.to_nat max_iter) x0 ;;
    eigen_estimate A x_i.

End PowerMethod.

Arguments state T : clear implicits.
Arguments M T X : clear implicits.


(** * Vocabulary of the properties *)

Unset Implicit Arguments.

Section Vocabulary.

Context {T : Type} `{Scalar T}.

(** An array that lives in the heap. *)
Definition valid (s : state T) (a : ndarray) : Prop := base a < length (heap s).

Definition log_state (s : state T) (tx : list event) : state T :=
  mk_state (heap s) (trace s ++ tx).

(** [grows b m]: a run of [m] only appends to the heap and to the trace, and
    enters the loop body at most [b] times. *)

Definition grows (b : nat) {X} (m : M T X) : Prop :=
  forall s, exists hx tx,
    snd (m s) = mk_state (heap s ++ hx) (trace s ++ tx) /\ iterations tx <= b.

(** [numpy_only m]: [m] never raises the [ValueError] of [power_method]'s own
    two [raise] statements. *)

Definition numpy_only {X} (m : M T X) : Prop :=
  forall s msg, fst (m s) <> inl (ValueError msg).

(** The supplied [x0] is an array of the caller's heap that squeezes to [n]
    elements (and holds that many). *)
Definition fits (s : state T) (n : nat) (x0 : option ndarray) : Prop :=
  match x0 with
  | None => True
  | Some v =>
      squeezed (shape v) = [n] /\ valid s v /\ length (read s v) = n
  end.

(** The quotients of line 52, one for every component. *)
Definition quotients (n : nat) (a x : list T) : list T :=
  zip_with div (matvec n n a x) x.

(** [np.max] of a buffer. *)
Definition max_all (d : list T) : T := max_reduce (hd zero d) (tl d).

(** ** One pass through the loop body, on data *)

(** The state after one pass from [s] with iterate [x]: three new buffers
    (the product, the normalised product, the difference) and seven events. *)
Definition body_product (n : nat) (A x : ndarray) (s : state T) : list T :=
  matvec n n (read s A) (read s x).

Definition body_next (n : nat) (A x : ndarray) (s : state T) : list T :=
  scale_div (body_product n A x s) (norm (body_product n A x s)).

Definition body_diff (n : nat) (A x : ndarray) (s : state T) : list T :=
  zip_with sub (body_next n A x s) (read s x).

Definition body_test (n : nat) (A x : ndarray) (eps : T) (s : state T) : bool :=
  ltb (norm (body_diff n A x s)) eps.

Definition body_events (n : nat) (A x : ndarray) (eps : T) (s : state T)
  : list event :=
  let L := length (heap s) in
  [Iter; Call_matmul A x; Call_norm (mk_ndarray [n] L);
   Call_divide_scalar (mk_ndarray [n] L);
   Call_subtract (mk_ndarray [n] (S L)) x;
   Call_norm (mk_ndarray [n] (S (S L))); Test (body_test n A x eps s)].

Definition body_state (n : nat) (A x : ndarray) (eps : T) (s : state T)
  : state T :=
  mk_state
    (heap s ++ [body_product n A x s; body_next n A x s; body_diff n A x s])
    (trace s ++ body_events n A x eps s).

Definition body_result (s : state T) (n : nat) : ndarray :=
  mk_ndarray [n] (S (length (heap s))).

(** ** Successive passes, on data *)

(** The iterate and the state after [k] passes from the iterate [x] in the
    state [s], whatever the tests said. *)
Fixpoint after_passes (n : nat) (A : ndarray) (eps : T) (k : nat)
    (x : ndarray) (s : state T) : ndarray * state T :=
  match k with
  | O => (x, s)
  | S k' =>
      after_passes n A eps k' (body_result s n) (body_state n A x eps s)
  end.

(** The test [error < eps] fails on each of the first [k] passes from [x]
    in [s]. *)
Fixpoint all_tests_fail (n : nat) (A : ndarray) (eps : T) (k : nat)
    (x : ndarray) (s : state T) : bool :=
  match k with
  | O => true
  | S k' =>
      negb (body_test n A x eps s) &&
      all_tests_fail n A eps k' (body_result s n) (body_state n A x eps s)
  end.

End Vocabulary.

(** ** IEEE-754 binary64 *)


(** ** Inputs of the concrete calls *)

Definition eps_default : float := 0x1.ad7f29abcaf48p-24%float. (* 1e-7 *)

Definition A_2x2 : ndarray := mk_ndarray [2; 2] 0.
Definition x_2 : ndarray := mk_ndarray [2] 1.

(** [A = [[2,0],[0,1]]], [x0 = [1,0]]. *)
Definition caller_diag : state float :=
  mk_state [[2; 0; 0; 1]; [1; 0]]%float [].

(** [A = [[2,0],[0,2]]]. *)
Definition caller_twice : state float := mk_state [[2; 0; 0; 2]]%float [].

(** [A = [[0,0],[0,0]]]. *)
Definition caller_zero : state float := mk_state [[0; 0; 0; 0]]%float [].

(** [A = [[0,1],[1,0]]], [x0 = [1,0]]. *)
Definition caller_swap : state float :=
  mk_state [[0; 1; 1; 0]; [1; 0]]%float [].

(** [A = [[1.5,-0.5],[-0.5,1.5]]] (eigenvalue 1 on (1,1), 2 on (1,-1)) and
    [x0 = [0.70710683775, 0.70710672461]]. *)
Definition caller_sym : state float :=
  mk_state [[1.5; -0.5; -0.5; 1.5];
            [0x1.6a09e84dd415cp-1; 0x1.6a09e481f6980p-1]]%float [].

(** [A = [[1,2,3]]], one row (or, with the shape (3, 1), one column). *)
Definition caller_row : state float := mk_state [[1; 2; 3]]%float [].

(** [A = [[-1,-2,-3]]], one row. *)
Definition caller_row_neg : state float := mk_state [[-1; -2; -3]]%float [].

(** [A = [[1e200,0],[0,1e200]]]. *)
Definition caller_huge : state float :=
  mk_state [[0x1.4e718d7d7625ap+664; 0; 0; 0x1.4e718d7d7625ap+664]]%float [].

(** The claimed eigenvalue estimate, in the words of the specification: the
    maximum of the quotients over the components with [x[i] <> 0] only. *)
Definition nonzero_quotients (ax x : list float) : list float :=
  map (fun p => (fst p / snd p)%float)
    (filter (fun p => negb (PrimFloat.eqb (snd p) 0%float)) (combine ax x)).

Definition claimed_eigenvalue (n : nat) (a x : list float) : float :=
  max_all (nonzero_quotients (matvec n n a x) x).

(** The claimed property of the returned vector: norm 1 within [tol]. *)
Definition unit_norm_within (tol : float) (v : list float) : bool :=
  PrimFloat.leb (PrimFloat.abs (norm v - 1)%float) tol.

(** The result of a call that returned. *)
Definition returned (r : (exn + float * ndarray) * state float)
  : float * ndarray :=
  match fst r with
  | inr p => p
  | inl _ => (PrimFloat.nan, mk_ndarray [] 0)
  end.

Definition first_run_twice : (exn + float * ndarray) * state float :=
  power_method A_2x2 None eps_default 10000 caller_twice.

(** ** Vocabulary of the further properties *)

Section FurtherVocabulary.

Context {T : Type} `{Scalar T}.

(** [heap_only m]: what a run of [m] returns, and the heap it leaves, depend
    on the heap it starts from and not on the trace. *)
Definition heap_only {X} (m : M T X) : Prop :=
  forall s1 s2, heap s1 = heap s2 ->
    fst (m s1) = fst (m s2) /\ heap (snd (m s1)) = heap (snd (m s2)).

(** Line 52 for a matrix of one row: the single product is broadcast
    against the components of the vector. *)
Definition row_quotients (n : nat) (a x : list T) : list T :=
  map (div (dot (row n a 0) x)) x.

End FurtherVocabulary.

(** The invariant of a loop fed with NaN: the matrix is an [n] by [n] array
    of the heap, the iterate has [n] elements, one of them NaN, and all of
    them NaN once a pass has been made (the trace has more than [k0] loop
    entries). *)
Definition nan_iterate (A : ndarray) (n k0 : nat) (s : state float)
    (x : ndarray) : Prop :=
  valid s A /\ length (read s A) = n * n /\ length (read s x) = n /\
  Exists (fun q => PrimFloat.is_nan q = true) (read s x) /\
  (k0 < iterations (trace s) ->
   Forall (fun q => PrimFloat.is_nan q = true) (read s x)).


(** ** Inputs of the further concrete calls *)

(** An empty matrix, of shape (0, 0). *)
Definition caller_empty : state float := mk_state [[]] [].

(** [A = [[2,0],[0,1]]], [x0 = [nan, 1]]. *)
Definition caller_nan : state float :=
  mk_state [[2; 0; 0; 1]; [PrimFloat.nan; 1]]%float [].

(** * Properties *)

Section Facts.

Context {T : Type} `{Scalar T}.

(* The scalar type of the section, for the statements that leave it open. *)
Local Abbreviation grows := (grows (T := T)) (only parsing).
Local Abbreviation numpy_only := (numpy_only (T := T)) (only parsing).

(** ** Events *)

Lemma iterations_app (t1 t2 : list event) :
  iterations (t1 ++ t2) = iterations t1 + iterations t2.
Proof. unfold iterations. rewrite filter_app, length_app. reflexivity. Qed.

Lemma matmuls_app (t1 t2 : list event) :
  matmuls (t1 ++ t2) = matmuls t1 + matmuls t2.
Proof. unfold matmuls. rewrite filter_app, length_app. reflexivity. Qed.

Lemma tests_app (t1 t2 : list event) : tests (t1 ++ t2) = tests t1 ++ tests t2.
Proof.
  induction t1 as [|e t1 IH]; simpl; [reflexivity|].
  destruct e; simpl; rewrite IH; reflexivity.
Qed.

(** ** What every run does to the state *)

Lemma grows_ret {X} (x : X) : grows 0 (ret (T := T) x).
Proof.
  intros [h t]. exists [], []. simpl. rewrite !app_nil_r. auto.
Qed.

Lemma grows_raise {X} (e : exn) : grows 0 (raise (T := T) (X := X) e).
Proof.
  intros [h t]. exists [], []. simpl. rewrite !app_nil_r. auto.
Qed.

Lemma grows_get_data (a : ndarray) : grows 0 (get_data a).
Proof.
  intros [h t]. exists [], []. simpl. rewrite !app_nil_r. auto.
Qed.

Lemma grows_alloc (sh : list nat) (d : list T) : grows 0 (alloc sh d).
Proof.
  intros [h t]. exists [d], []. simpl. rewrite !app_nil_r. auto.
Qed.

Lemma grows_log (e : event) : grows (if is_iter e then 1 else 0) (log e).
Proof.
  intros [h t]. exists [], [e]. simpl. rewrite !app_nil_r. split; [reflexivity|].
  unfold iterations. simpl. destruct (is_iter e); simpl; lia.
Qed.

Lemma grows_weaken {X} (b b' : nat) (m : M T X) :
  b <= b' -> grows b m -> grows b' m.
Proof.
  intros Hb Hm s. destruct (Hm s) as (hx & tx & E & Hi).
  exists hx, tx. split; [assumption | lia].
Qed.

Lemma grows_bind {X Y} (b1 b2 : nat) (m : M T X) (f : X -> M T Y) :
  grows b1 m -> (forall x, grows b2 (f x)) -> grows (b1 + b2) (bind m f).
Proof.
  intros Hm Hf s. unfold bind.
  destruct (Hm s) as (hx & tx & E & Hi).
  destruct (m s) as [[e|x] s1]; simpl in E; subst s1.
  - exists hx, tx. simpl. split; [reflexivity | lia].
  - destruct (Hf x (mk_state (heap s ++ hx) (trace s ++ tx)))
      as (hx' & tx' & E' & Hi').
    exists (hx ++ hx'), (tx ++ tx'). rewrite E'. simpl.
    rewrite !app_assoc, iterations_app. split; [reflexivity | lia].
Qed.

Lemma grows_bind0 {X Y} (b : nat) (m : M T X) (f : X -> M T Y) :
  grows 0 m -> (forall x, grows b (f x)) -> grows b (bind m f).
Proof. intros Hm Hf. exact (@grows_bind X Y 0 b m f Hm Hf). Qed.

Lemma grows_if {X} (b : nat) (c : bool) (m1 m2 : M T X) :
  grows b m1 -> grows b m2 -> grows b (if c then m1 else m2).
Proof. destruct c; auto. Qed.

Lemma grows_log0 (e : event) : is_iter e = false -> grows 0 (log e).
Proof. intros E. generalize (grows_log e). rewrite E. auto. Qed.

Ltac grows_step :=
  first
    [ apply grows_ret | apply grows_raise | apply grows_get_data
    | apply grows_alloc | apply grows_log0; reflexivity
    | apply grows_bind0; [| intros ?] | apply grows_if ].

Lemma grows_np_ones (n : nat) : grows 0 (np_ones n).
Proof. unfold np_ones. repeat grows_step. Qed.

Lemma grows_np_squeeze (a : ndarray) : grows 0 (np_squeeze a).
Proof. unfold np_squeeze. repeat grows_step. Qed.

Lemma grows_np_matmul (a x : ndarray) : grows 0 (np_matmul a x).
Proof.
  unfold np_matmul. apply grows_bind0; [grows_step | intros _].
  destruct (shape a) as [|m [|n [|? ?]]]; try apply grows_raise;
    destruct (shape x) as [|k [|? ?]]; try apply grows_raise.
  repeat grows_step.
Qed.

Lemma grows_np_linalg_norm (v : ndarray) : grows 0 (np_linalg_norm v).
Proof. unfold np_linalg_norm. repeat grows_step. Qed.

Lemma grows_np_divide_scalar (v : ndarray) (c : T) :
  grows 0 (np_divide_scalar v c).
Proof. unfold np_divide_scalar. repeat grows_step. Qed.

Lemma grows_broadcast (f : T -> T -> T) (a b : ndarray) :
  grows 0 (broadcast f a b).
Proof.
  unfold broadcast.
  destruct (shape a) as [|n [|? ?]]; try apply grows_raise;
    destruct (shape b) as [|k [|? ?]]; try apply grows_raise.
  repeat grows_step.
Qed.

Lemma grows_np_subtract (a b : ndarray) : grows 0 (np_subtract a b).
Proof.
  unfold np_subtract. apply grows_bind0; [grows_step | intros _].
  apply grows_broadcast.
Qed.

Lemma grows_np_divide (a b : ndarray) : grows 0 (np_divide a b).
Proof.
  unfold np_divide. apply grows_bind0; [grows_step | intros _].
  apply grows_broadcast.
Qed.

Lemma grows_np_max (v : ndarray) : grows 0 (np_max v).
Proof.
  unfold np_max. apply grows_bind0; [grows_step | intros _].
  apply grows_bind0; [grows_step | intros d].
  destruct d; grows_step.
Qed.

Lemma grows_initial_vector (A : ndarray) (x0 : option ndarray) :
  grows 0 (initial_vector A x0).
Proof.
  destruct x0 as [v|]; simpl; [| apply grows_np_ones].
  apply grows_bind0; [apply grows_np_squeeze | intros x].
  repeat grows_step.
Qed.

Lemma grows_power_loop (A : ndarray) (eps : T) (n : nat) :
  forall x, grows n (power_loop A eps n x).
Proof.
  induction n as [|n IH]; intros x; simpl; [apply grows_ret|].
  change (S n) with (1 + n). apply grows_bind; [apply (grows_log Iter)|intros _].
  apply grows_bind0; [apply grows_np_matmul | intros y].
  apply grows_bind0; [apply grows_np_linalg_norm | intros nrm].
  apply grows_bind0; [apply grows_np_divide_scalar | intros x1].
  apply grows_bind0; [apply grows_np_subtract | intros d].
  apply grows_bind0; [apply grows_np_linalg_norm | intros err].
  apply grows_bind0; [grows_step | intros _].
  apply grows_if; [| apply IH].
  apply grows_weaken with (b := 0); [lia | apply grows_ret].
Qed.

Lemma grows_eigen_estimate (A x : ndarray) : grows 0 (eigen_estimate A x).
Proof.
  unfold eigen_estimate.
  apply grows_bind0; [apply grows_np_matmul | intros y].
  apply grows_bind0; [apply grows_np_divide | intros q].
  apply grows_bind0; [apply grows_np_max | intros e].
  apply grows_ret.
Qed.

Lemma grows_power_method (A : ndarray) (x0 : option ndarray) (eps : T)
    (max_iter : Z) :
  grows (Z.to_nat max_iter) (power_method A x0 eps max_iter).
Proof.
  unfold power_method.
  apply grows_if.
  - apply grows_weaken with (b := 0); [lia | apply grows_raise].
  - apply grows_bind0; [apply grows_initial_vector | intros x].
    apply grows_weaken with (b := Z.to_nat max_iter + 0); [lia|].
    apply grows_bind; [apply grows_power_loop | intros x'].
    apply grows_eigen_estimate.
Qed.

(** ** Which exceptions a run can raise *)

Lemma numpy_only_ret {X} (x : X) : numpy_only (ret (T := T) x).
Proof. intros s msg. discriminate. Qed.

Lemma numpy_only_raise {X} (e : numpy_error) :
  numpy_only (raise (T := T) (X := X) (NumpyValueError e)).
Proof. intros s msg. discriminate. Qed.

Lemma numpy_only_log (e : event) : numpy_only (log e).
Proof. intros s msg. discriminate. Qed.

Lemma numpy_only_get_data (a : ndarray) : numpy_only (get_data a).
Proof. intros s msg. discriminate. Qed.

Lemma numpy_only_alloc (sh : list nat) (d : list T) : numpy_only (alloc sh d).
Proof. intros s msg. discriminate. Qed.

Lemma numpy_only_bind {X Y} (m : M T X) (f : X -> M T Y) :
  numpy_only m -> (forall x, numpy_only (f x)) -> numpy_only (bind m f).
Proof.
  intros Hm Hf s msg. unfold bind. specialize (Hm s msg).
  destruct (m s) as [[e|x] s1]; simpl in *; [| apply Hf].
  intros E. apply Hm. inversion E. reflexivity.
Qed.

Lemma numpy_only_if {X} (c : bool) (m1 m2 : M T X) :
  numpy_only m1 -> numpy_only m2 -> numpy_only (if c then m1 else m2).
Proof. destruct c; auto. Qed.

Ltac numpy_only_step :=
  first
    [ apply numpy_only_ret | apply numpy_only_raise | apply numpy_only_log
    | apply numpy_only_get_data | apply numpy_only_alloc
    | apply numpy_only_bind; [| intros ?] | apply numpy_only_if ].

Lemma numpy_only_np_matmul (a x : ndarray) : numpy_only (np_matmul a x).
Proof.
  unfold np_matmul. apply numpy_only_bind; [numpy_only_step | intros _].
  destruct (shape a) as [|m [|n [|? ?]]]; try apply numpy_only_raise;
    destruct (shape x) as [|k [|? ?]]; try apply numpy_only_raise.
  repeat numpy_only_step.
Qed.

Lemma numpy_only_np_linalg_norm (v : ndarray) : numpy_only (np_linalg_norm v).
Proof. unfold np_linalg_norm. repeat numpy_only_step. Qed.

Lemma numpy_only_np_divide_scalar (v : ndarray) (c : T) :
  numpy_only (np_divide_scalar v c).
Proof. unfold np_divide_scalar. repeat numpy_only_step. Qed.

Lemma numpy_only_broadcast (f : T -> T -> T) (a b : ndarray) :
  numpy_only (broadcast f a b).
Proof.
  unfold broadcast.
  destruct (shape a) as [|n [|? ?]]; try apply numpy_only_raise;
    destruct (shape b) as [|k [|? ?]]; try apply numpy_only_raise.
  repeat numpy_only_step.
Qed.

Lemma numpy_only_np_max (v : ndarray) : numpy_only (np_max v).
Proof.
  unfold np_max. apply numpy_only_bind; [numpy_only_step | intros _].
  apply numpy_only_bind; [numpy_only_step | intros d].
  destruct d; numpy_only_step.
Qed.

Lemma numpy_only_power_loop (A : ndarray) (eps : T) (n : nat) :
  forall x, numpy_only (power_loop A eps n x).
Proof.
  induction n as [|n IH]; intros x; simpl; [apply numpy_only_ret|].
  apply numpy_only_bind; [numpy_only_step | intros _].
  apply numpy_only_bind; [apply numpy_only_np_matmul | intros y].
  apply numpy_only_bind; [apply numpy_only_np_linalg_norm | intros nrm].
  apply numpy_only_bind; [apply numpy_only_np_divide_scalar | intros x1].
  apply numpy_only_bind; [| intros d].
  { unfold np_subtract. apply numpy_only_bind; [numpy_only_step | intros _].
    apply numpy_only_broadcast. }
  apply numpy_only_bind; [apply numpy_only_np_linalg_norm | intros err].
  apply numpy_only_bind; [numpy_only_step | intros _].
  apply numpy_only_if; [apply numpy_only_ret | apply IH].
Qed.

Lemma numpy_only_eigen_estimate (A x : ndarray) :
  numpy_only (eigen_estimate A x).
Proof.
  unfold eigen_estimate.
  apply numpy_only_bind; [apply numpy_only_np_matmul | intros y].
  apply numpy_only_bind; [| intros q].
  { unfold np_divide. apply numpy_only_bind; [numpy_only_step | intros _].
    apply numpy_only_broadcast. }
  apply numpy_only_bind; [apply numpy_only_np_max | intros e].
  apply numpy_only_ret.
Qed.

(** ** Run equations of the numpy calls *)


Lemma read_fresh (h : list (list T)) (t : list event) (hx : list (list T))
    (sh : list nat) (k : nat) :
  read (mk_state (h ++ hx) t) (mk_ndarray sh (length h + k)) = nth k hx [].
Proof. unfold read. simpl. apply app_nth2_plus. Qed.

Lemma read_old (s : state T) (hx : list (list T)) (t : list event)
    (a : ndarray) :
  valid s a -> read (mk_state (heap s ++ hx) t) a = read s a.
Proof. intros Hv. unfold read. simpl. apply app_nth1. exact Hv. Qed.

Lemma run_np_matmul (a x : ndarray) (m n : nat) (s : state T) :
  shape a = [m; n] -> shape x = [n] ->
  np_matmul a x s =
  (inr (mk_ndarray [m] (length (heap s))),
   mk_state (heap s ++ [matvec m n (read s a) (read s x)])
            (trace s ++ [Call_matmul a x])).
Proof.
  intros Ha Hx. unfold np_matmul, bind, log. simpl. rewrite Ha, Hx.
  rewrite Nat.eqb_refl. reflexivity.
Qed.

Lemma run_np_matmul_mismatch (a x : ndarray) (m n k : nat) (s : state T) :
  shape a = [m; n] -> shape x = [k] -> n <> k ->
  np_matmul a x s =
  (inl (NumpyValueError (MatmulMismatch n k)), log_state s [Call_matmul a x]).
Proof.
  intros Ha Hx Hnk. unfold np_matmul, bind, log. simpl. rewrite Ha, Hx.
  apply Nat.eqb_neq in Hnk. rewrite Hnk. reflexivity.
Qed.

Lemma run_np_linalg_norm (v : ndarray) (s : state T) :
  np_linalg_norm v s = (inr (norm (read s v)), log_state s [Call_norm v]).
Proof. reflexivity. Qed.

Lemma run_np_divide_scalar (v : ndarray) (c : T) (s : state T) :
  np_divide_scalar v c s =
  (inr (mk_ndarray (shape v) (length (heap s))),
   mk_state (heap s ++ [scale_div (read s v) c])
            (trace s ++ [Call_divide_scalar v])).
Proof. reflexivity. Qed.

Lemma run_broadcast_same (f : T -> T -> T) (a b : ndarray) (n : nat)
    (s : state T) :
  shape a = [n] -> shape b = [n] ->
  broadcast f a b s =
  (inr (mk_ndarray [n] (length (heap s))),
   mk_state (heap s ++ [zip_with f (read s a) (read s b)]) (trace s)).
Proof.
  intros Ha Hb. unfold broadcast. rewrite Ha, Hb. unfold bind, get_data.
  simpl. rewrite Nat.eqb_refl. reflexivity.
Qed.

Lemma run_np_max (v : ndarray) (s : state T) :
  read s v <> [] ->
  np_max v s =
  (inr (max_reduce (hd zero (read s v)) (tl (read s v))),
   log_state s [Call_max v]).
Proof.
  intros Hne. unfold np_max, bind, log, get_data. simpl.
  change (read (mk_state (heap s) (trace s ++ [Call_max v])) v)
    with (read s v).
  destruct (read s v) as [|a d]; [congruence | reflexivity].
Qed.

Lemma run_np_subtract_same (a b : ndarray) (n : nat) (s : state T) :
  shape a = [n] -> shape b = [n] ->
  np_subtract a b s =
  (inr (mk_ndarray [n] (length (heap s))),
   mk_state (heap s ++ [zip_with sub (read s a) (read s b)])
            (trace s ++ [Call_subtract a b])).
Proof.
  intros Ha Hb. unfold np_subtract, bind, log. simpl.
  rewrite (run_broadcast_same _ _ _ _ _ Ha Hb). reflexivity.
Qed.

Lemma run_np_divide_same (a b : ndarray) (n : nat) (s : state T) :
  shape a = [n] -> shape b = [n] ->
  np_divide a b s =
  (inr (mk_ndarray [n] (length (heap s))),
   mk_state (heap s ++ [zip_with div (read s a) (read s b)])
            (trace s ++ [Call_divide a b])).
Proof.
  intros Ha Hb. unfold np_divide, bind, log. simpl.
  rewrite (run_broadcast_same _ _ _ _ _ Ha Hb). reflexivity.
Qed.

(** ** One pass through the loop body, shapes agreeing *)


Lemma power_loop_step (A x : ndarray) (eps : T) (k n : nat) (s : state T) :
  shape A = [n; n] -> shape x = [n] -> valid s x ->
  power_loop A eps (S k) x s =
  if body_test n A x eps s
  then (inr (body_result s n), body_state n A x eps s)
  else power_loop A eps k (body_result s n) (body_state n A x eps s).
Proof.
  intros HA Hx Hv.
  cbn [power_loop]. unfold bind at 1. cbn [log].
  unfold bind at 1. rewrite (run_np_matmul _ _ _ _ _ HA Hx).
  unfold bind at 1. rewrite run_np_linalg_norm.
  unfold bind at 1. rewrite run_np_divide_scalar.
  unfold bind at 1.
  cbn [heap trace shape log_state].
  rewrite (run_np_subtract_same _ _ n) by reflexivity || assumption.
  unfold bind at 1. rewrite run_np_linalg_norm.
  unfold bind at 1. cbn [log].
  unfold body_state, body_events, body_result. unfold body_test.
  unfold body_diff. unfold body_next. unfold body_product, read, log_state.
  cbn [heap base trace shape].
  rewrite !nth_middle.
  rewrite !app_nth1 by (rewrite ?length_app; unfold valid in Hv; lia).
  rewrite <- !app_assoc. cbn [app].
  rewrite !length_app. cbn [length].
  replace (length (heap s) + 1) with (S (length (heap s))) by lia.
  replace (length (heap s) + 2) with (S (S (length (heap s)))) by lia.
  destruct (ltb _ eps); reflexivity.
Qed.

(** ** The validation block and the frame of [power_method] *)

Lemma power_method_unfold (A : ndarray) (x0 : option ndarray) (eps : T)
    (max_iter : Z) (s : state T) :
  ndim A = 2 ->
  power_method A x0 eps max_iter s =
  bind (initial_vector A x0)
    (fun x => bind (power_loop A eps (Z.to_nat max_iter) x) (eigen_estimate A))
    s.
Proof. intros HA. unfold power_method. rewrite HA. reflexivity. Qed.

Lemma power_method_not_2D (A : ndarray) (x0 : option ndarray) (eps : T)
    (max_iter : Z) (s : state T) :
  ndim A <> 2 ->
  power_method A x0 eps max_iter s = (inl (ValueError msg_A), s).
Proof.
  intros HA. unfold power_method. apply Nat.eqb_neq in HA. rewrite HA.
  reflexivity.
Qed.

Lemma run_initial_vector_none (A : ndarray) (s : state T) :
  initial_vector A None s =
  (inr (mk_ndarray [nth 1 (shape A) 0] (length (heap s))),
   mk_state (heap s ++ [repeat one (nth 1 (shape A) 0)])
            (trace s ++ [Call_ones (nth 1 (shape A) 0)])).
Proof. reflexivity. Qed.

Lemma run_initial_vector_some (A v : ndarray) (s : state T) :
  initial_vector A (Some v) s =
  if length (squeezed (shape v)) =? 1
  then (inr (mk_ndarray (squeezed (shape v)) (base v)),
        log_state s [Call_squeeze v])
  else (inl (ValueError msg_x0), log_state s [Call_squeeze v]).
Proof.
  unfold initial_vector, np_squeeze, bind, log, ndim. simpl.
  destruct (length (squeezed (shape v)) =? 1); reflexivity.
Qed.

Lemma squeezed_ones (i : nat) : squeezed (repeat 1 i) = [].
Proof. induction i as [|i IH]; simpl; [reflexivity | exact IH]. Qed.

Lemma squeezed_one_axis (i j n : nat) :
  n <> 1 -> squeezed (repeat 1 i ++ n :: repeat 1 j) = [n].
Proof.
  intros Hn. unfold squeezed. rewrite filter_app. fold (squeezed (repeat 1 i)).
  rewrite squeezed_ones. simpl. apply Nat.eqb_neq in Hn. rewrite Hn. simpl.
  fold (squeezed (repeat 1 j)). rewrite squeezed_ones. reflexivity.
Qed.

(** After the validation block nothing raises [power_method]'s own error. *)
Lemma numpy_only_iterate (A : ndarray) (eps : T) (n : nat) (x : ndarray) :
  numpy_only (bind (power_loop A eps n x) (eigen_estimate A)).
Proof.
  apply numpy_only_bind; [apply numpy_only_power_loop | intros x'].
  apply numpy_only_eigen_estimate.
Qed.

(** ** Shapes that do not fit *)

(** With an iterate whose length is not the number of columns of [A], the
    next matrix-vector product fails, in the loop or in line 52. *)
Lemma mismatch_tail (A : ndarray) (eps : T) (m n k : nat) (fuel : nat)
    (x : ndarray) (s : state T) :
  shape A = [m; n] -> shape x = [k] -> n <> k ->
  exists s',
    bind (power_loop A eps fuel x) (eigen_estimate A) s =
    (inl (NumpyValueError (MatmulMismatch n k)), s').
Proof.
  intros HA Hx Hnk. destruct fuel as [|fuel].
  - unfold bind, eigen_estimate. cbn [power_loop ret]. unfold bind.
    rewrite (run_np_matmul_mismatch _ _ _ _ _ _ HA Hx Hnk). eauto.
  - unfold bind at 1. cbn [power_loop]. unfold bind at 1. cbn [log].
    unfold bind at 1. rewrite (run_np_matmul_mismatch _ _ _ _ _ _ HA Hx Hnk). eauto.
Qed.

Lemma bind_assoc {X Y Z} (m : M T X) (f : X -> M T Y) (g : Y -> M T Z)
    (s : state T) :
  bind (bind m f) g s = bind m (fun x => bind (f x) g) s.
Proof. unfold bind. destruct (m s) as [[e|x] s1]; reflexivity. Qed.

Lemma bind_if {X Y} (c : bool) (m1 m2 : M T X) (g : X -> M T Y) (s : state T) :
  bind (if c then m1 else m2) g s = if c then bind m1 g s else bind m2 g s.
Proof. destruct c; reflexivity. Qed.

Lemma np_subtract_cases (a b : ndarray) (n k : nat) (s : state T) :
  shape a = [n] -> shape b = [k] ->
  (exists d s', np_subtract a b s = (inr d, s')) \/
  (exists s',
     np_subtract a b s = (inl (NumpyValueError (BroadcastMismatch n k)), s')).
Proof.
  intros Ha Hb. unfold np_subtract, broadcast, bind, log, get_data, alloc.
  rewrite Ha, Hb. cbn.
  destruct (n =? k); [left; eauto|]. destruct (n =? 1); [left; eauto|].
  destruct (k =? 1); [left; eauto | right; unfold raise; eauto].
Qed.

(** A non-square [A] with an iterate as long as its rows are: the pass
    through the loop body either fails in the subtraction or leaves an
    iterate as long as the columns, on which the next product fails. *)
Lemma nonsquare_pass (A : ndarray) (eps : T) (m n : nat) (fuel : nat)
    (x : ndarray) (s : state T) :
  shape A = [m; n] -> shape x = [n] -> m <> n ->
  exists e s',
    bind (power_loop A eps (S fuel) x) (eigen_estimate A) s = (inl e, s') /\
    is_shape_error e = true.
Proof.
  intros HA Hx Hmn.
  assert (Hnm : n <> m) by congruence.
  cbn [power_loop].
  rewrite bind_assoc. unfold bind at 1. cbn [log].
  rewrite bind_assoc. unfold bind at 1. rewrite (run_np_matmul _ _ _ _ _ HA Hx).
  rewrite bind_assoc. unfold bind at 1. rewrite run_np_linalg_norm.
  rewrite bind_assoc. unfold bind at 1. rewrite run_np_divide_scalar.
  cbn [shape].
  set (x1 := mk_ndarray [m] _).
  assert (Hx1 : shape x1 = [m]) by reflexivity. clearbody x1.
  rewrite bind_assoc. unfold bind at 1.
  match goal with |- context [np_subtract x1 x ?s1] =>
    destruct (@np_subtract_cases x1 x m n s1 Hx1 Hx)
      as [(d & s2 & E) | (s2 & E)]
  end; rewrite E; [| eauto].
  rewrite bind_assoc. unfold bind at 1. rewrite run_np_linalg_norm.
  rewrite bind_assoc. unfold bind at 1. cbn [log]. rewrite bind_if.
  match goal with |- context [if ?c then _ else _] => destruct c end.
  - match goal with |- context [bind _ (eigen_estimate A) ?st] =>
      destruct (@mismatch_tail A eps m n m 0 x1 st HA Hx1 Hnm) as [s' E']
    end.
    cbn [power_loop] in E'. rewrite E'. eauto.
  - match goal with |- context [bind _ (eigen_estimate A) ?st] =>
      destruct (@mismatch_tail A eps m n m fuel x1 st HA Hx1 Hnm) as [s' E']
    end.
    rewrite E'. eauto.
Qed.

(** ** Claims on the validation of shapes *)

(** C3, as the code has it.  A matrix with two unequal dimensions makes
    [power_method] fail with a shape error, for every initial vector and
    tolerance, when [max_iter] is positive, so that the loop is entered: the
    error is [power_method]'s own when [x0] does not squeeze to one
    dimension, and otherwise numpy's, from a matrix-vector product or from
    the subtraction of two iterates.  (With [max_iter <= 0] a matrix of one
    row or one column is broadcast in line 52 and the call returns.) *)
Theorem nonsquare_matrix_shape_error (A : ndarray) (x0 : option ndarray)
    (eps : T) (max_iter : Z) (s : state T) (m n : nat) :
  shape A = [m; n] -> m <> n -> (0 < max_iter)%Z ->
  exists e s',
    power_method A x0 eps max_iter s = (inl e, s') /\ is_shape_error e = true.
Proof.
  intros HA Hmn Hpos.
  rewrite power_method_unfold by (unfold ndim; rewrite HA; reflexivity).
  destruct (Z.to_nat max_iter) as [|fuel] eqn:Hfuel; [lia|].
  destruct x0 as [v|].
  - unfold bind at 1. rewrite run_initial_vector_some.
    destruct (length (squeezed (shape v)) =? 1) eqn:E.
    + apply Nat.eqb_eq in E.
      destruct (squeezed (shape v)) as [|k [|? ?]] eqn:Hv; try discriminate.
      destruct (Nat.eq_dec n k) as [->|Hnk].
      * apply nonsquare_pass with (m := m) (n := k); auto.
      * match goal with |- context [bind _ (eigen_estimate A) ?st] =>
          destruct (@mismatch_tail A eps m n k (S fuel)
                      (mk_ndarray [k] (base v)) st HA eq_refl Hnk) as [s' E']
        end.
        rewrite E'. eauto.
    + eauto.
  - unfold bind at 1. rewrite run_initial_vector_none. rewrite HA. cbn [nth].
    apply nonsquare_pass with (m := m) (n := n); auto.
Qed.

(** C4.  For a square [A] of dimension [n] and a supplied [x0] that squeezes
    to one dimension of a length [k] other than [n], [power_method] fails
    with numpy's shape error of the matrix-vector product, whatever
    [max_iter] is. *)
Theorem x0_length_mismatch_shape_error (A v : ndarray) (eps : T)
    (max_iter : Z) (s : state T) (n k : nat) :
  shape A = [n; n] -> squeezed (shape v) = [k] -> k <> n ->
  exists s',
    power_method A (Some v) eps max_iter s =
    (inl (NumpyValueError (MatmulMismatch n k)), s') /\
    is_shape_error (NumpyValueError (MatmulMismatch n k)) = true.
Proof.
  intros HA Hv Hkn.
  rewrite power_method_unfold by (unfold ndim; rewrite HA; reflexivity).
  unfold bind at 1. rewrite run_initial_vector_some, Hv. cbn [length Nat.eqb].
  assert (Hnk : n <> k) by congruence.
  match goal with |- context [bind _ (eigen_estimate A) ?st] =>
    destruct (@mismatch_tail A eps n n k (Z.to_nat max_iter)
                (mk_ndarray [k] (base v)) st HA eq_refl Hnk) as [s' E']
  end.
  rewrite E'. eauto.
Qed.

(** C7.  The [ValueError]s that [power_method] raises itself are the two of
    the validation block: one exactly when [A] is not two-dimensional, raised
    in the state the call started in, and one exactly when [A] is
    two-dimensional and the supplied [x0] does not squeeze to one dimension,
    raised after the call of [np.squeeze] alone.  Whenever the call ends in
    one of them, no loop body was entered and no numpy arithmetic (product,
    norm, division, subtraction, maximum) was called. *)
Theorem validation_errors_before_iteration (A : ndarray)
    (x0 : option ndarray) (eps : T) (max_iter : Z) (s : state T) :
  (ndim A <> 2 ->
   power_method A x0 eps max_iter s = (inl (ValueError msg_A), s)) /\
  (forall v, ndim A = 2 -> x0 = Some v -> length (squeezed (shape v)) <> 1 ->
   power_method A x0 eps max_iter s =
   (inl (ValueError msg_x0), log_state s [Call_squeeze v])) /\
  (forall msg s',
   power_method A x0 eps max_iter s = (inl (ValueError msg), s') ->
   ((ndim A <> 2 /\ msg = msg_A) \/
    (ndim A = 2 /\ msg = msg_x0 /\
     exists v, x0 = Some v /\ length (squeezed (shape v)) <> 1)) /\
   exists tx, s' = log_state s tx /\
              iterations tx = 0 /\ filter is_arith tx = []).
Proof.
  split; [| split].
  - apply power_method_not_2D.
  - intros v HA -> Hv. rewrite power_method_unfold by assumption.
    unfold bind at 1. rewrite run_initial_vector_some.
    apply Nat.eqb_neq in Hv. rewrite Hv. reflexivity.
  - intros msg s' E.
    destruct (Nat.eq_dec (ndim A) 2) as [HA|HA].
    + rewrite power_method_unfold in E by assumption.
      unfold bind at 1 in E. destruct x0 as [v|].
      * rewrite run_initial_vector_some in E.
        destruct (length (squeezed (shape v)) =? 1) eqn:Hv.
        -- exfalso.
           exact (numpy_only_iterate A eps (Z.to_nat max_iter) _ _ _
                    (f_equal fst E)).
        -- inversion E; subst. apply Nat.eqb_neq in Hv. split.
           ++ right. repeat split; eauto.
           ++ exists [Call_squeeze v]. repeat split.
      * rewrite run_initial_vector_none in E. exfalso.
        exact (numpy_only_iterate A eps (Z.to_nat max_iter) _ _ _
                 (f_equal fst E)).
    + rewrite power_method_not_2D in E by assumption. inversion E; subst.
      split; [left; split; [assumption | reflexivity]|].
      exists []. unfold log_state. rewrite app_nil_r. destruct s'.
      repeat split.
Qed.

(** C10.  The validation of a supplied [x0] looks only at the squeezed
    shape.  A shape of any rank with exactly one axis [n] other than 1 (for
    instance (1,n) or (n,1,1)) is squeezed to (n,), a view of the same
    buffer, and passes: the call goes on to the loop with that view and can
    no longer raise [power_method]'s own [ValueError].  A shape whose axes
    are all 1 (the scalar shape (), (1,), (1,1), ...) squeezes to zero
    dimensions and is rejected with the [ValueError] of line 41. *)
Theorem x0_validation_by_squeezed_shape (A v : ndarray) (eps : T)
    (max_iter : Z) (s : state T) (i j n : nat) :
  (n <> 1 -> shape v = repeat 1 i ++ n :: repeat 1 j ->
   initial_vector A (Some v) s =
   (inr (mk_ndarray [n] (base v)), log_state s [Call_squeeze v]) /\
   (ndim A = 2 ->
    power_method A (Some v) eps max_iter s =
    bind (power_loop A eps (Z.to_nat max_iter) (mk_ndarray [n] (base v)))
      (eigen_estimate A) (log_state s [Call_squeeze v]) /\
    forall msg,
      fst (power_method A (Some v) eps max_iter s) <> inl (ValueError msg))) /\
  (shape v = repeat 1 i ->
   initial_vector A (Some v) s =
   (inl (ValueError msg_x0), log_state s [Call_squeeze v]) /\
   (ndim A = 2 ->
    power_method A (Some v) eps max_iter s =
    (inl (ValueError msg_x0), log_state s [Call_squeeze v]))).
Proof.
  split.
  - intros Hn Hv.
    assert (E : initial_vector A (Some v) s =
                (inr (mk_ndarray [n] (base v)), log_state s [Call_squeeze v])).
    { rewrite run_initial_vector_some, Hv, squeezed_one_axis by assumption.
      reflexivity. }
    split; [exact E|]. intros HA.
    assert (E' : power_method A (Some v) eps max_iter s =
                 bind (power_loop A eps (Z.to_nat max_iter)
                         (mk_ndarray [n] (base v)))
                   (eigen_estimate A) (log_state s [Call_squeeze v])).
    { rewrite power_method_unfold by assumption.
      unfold bind at 1. rewrite E. reflexivity. }
    split; [exact E'|]. intros msg. rewrite E'. apply numpy_only_iterate.
  - intros Hv.
    assert (E : initial_vector A (Some v) s =
                (inl (ValueError msg_x0), log_state s [Call_squeeze v])).
    { rewrite run_initial_vector_some, Hv, squeezed_ones. reflexivity. }
    split; [exact E|]. intros HA.
    rewrite power_method_unfold by assumption.
    unfold bind at 1. rewrite E. reflexivity.
Qed.

(** ** The frame of a call *)

Lemma bind_inr {X Y} (m : M T X) (f : X -> M T Y) (s s' : state T) (y : Y) :
  bind m f s = (inr y, s') ->
  exists x s1, m s = (inr x, s1) /\ f x s1 = (inr y, s').
Proof.
  unfold bind. destruct (m s) as [[e|x] s1]; [discriminate|]. eauto.
Qed.

Lemma grows_heap {X} (b : nat) (m : M T X) (s s' : state T) (r : exn + X) :
  grows b m -> m s = (r, s') -> exists hx, heap s' = heap s ++ hx.
Proof.
  intros Hm E. destruct (Hm s) as (hx & tx & E' & _).
  rewrite E in E'. simpl in E'. subst s'. exists hx. reflexivity.
Qed.

Lemma grows_length {X} (b : nat) (m : M T X) (s s' : state T) (r : exn + X) :
  grows b m -> m s = (r, s') -> length (heap s) <= length (heap s').
Proof.
  intros Hm E. destruct (grows_heap _ _ _ _ _ Hm E) as [hx ->].
  rewrite length_app. lia.
Qed.

(** The vector a loop returns is its argument (no pass was made) or lives
    in a buffer allocated by the loop. *)
Lemma power_loop_result (A : ndarray) (eps : T) (fuel : nat) :
  forall (x : ndarray) (s : state T) (x' : ndarray) (s' : state T),
    power_loop A eps fuel x s = (inr x', s') ->
    (fuel = 0 /\ x' = x) \/ (0 < fuel /\ length (heap s) <= base x').
Proof.
  induction fuel as [|fuel IH]; intros x s x' s' E.
  - left. cbn in E. inversion E. auto.
  - right. split; [lia|]. cbn [power_loop] in E.
    apply bind_inr in E. destruct E as ([] & s1 & E1 & E).
    apply bind_inr in E. destruct E as (y & s2 & E2 & E).
    apply bind_inr in E. destruct E as (nrm & s3 & E3 & E).
    apply bind_inr in E. destruct E as (x1 & s4 & E4 & E).
    apply bind_inr in E. destruct E as (d & s5 & E5 & E).
    apply bind_inr in E. destruct E as (err & s6 & E6 & E).
    apply bind_inr in E. destruct E as ([] & s7 & E7 & E).
    pose proof (grows_length _ _ _ _ _ (grows_log Iter) E1) as L1.
    pose proof (grows_length _ _ _ _ _ (grows_np_matmul A x) E2) as L2.
    pose proof (grows_length _ _ _ _ _ (grows_np_linalg_norm y) E3) as L3.
    pose proof (grows_length _ _ _ _ _ (grows_np_divide_scalar y nrm) E4) as L4.
    pose proof (grows_length _ _ _ _ _ (grows_np_subtract x1 x) E5) as L5.
    pose proof (grows_length _ _ _ _ _ (grows_np_linalg_norm d) E6) as L6.
    pose proof (grows_length _ _ _ _ _ (grows_log (Test (ltb err eps))) E7) as L7.
    assert (Hx1 : base x1 = length (heap s3)).
    { rewrite run_np_divide_scalar in E4. inversion E4. reflexivity. }
    destruct (ltb err eps).
    + inversion E; subst x'. lia.
    + apply IH in E. destruct E as [[_ ->] | [_ Hf]]; lia.
Qed.

Lemma eigen_estimate_vector (A x : ndarray) (s s' : state T) (ev : T)
    (x' : ndarray) :
  eigen_estimate A x s = (inr (ev, x'), s') -> x' = x.
Proof.
  intros E. unfold eigen_estimate in E.
  apply bind_inr in E. destruct E as (y & s1 & _ & E).
  apply bind_inr in E. destruct E as (q & s2 & _ & E).
  apply bind_inr in E. destruct E as (e & s3 & _ & E).
  inversion E. reflexivity.
Qed.

(** C9.  A call of [power_method] only appends buffers to the heap: every
    buffer that existed before the call, the caller's [A] and [x0] among
    them, holds the same elements after it, whether the call returns or
    raises; and when the loop is entered ([max_iter] positive) the returned
    vector lives in a buffer that did not exist before the call. *)
Theorem caller_arrays_not_mutated (A : ndarray) (x0 : option ndarray)
    (eps : T) (max_iter : Z) (s : state T) :
  (exists hx,
     heap (snd (power_method A x0 eps max_iter s)) = heap s ++ hx) /\
  (forall a, valid s a ->
     read (snd (power_method A x0 eps max_iter s)) a = read s a) /\
  (forall ev x,
     fst (power_method A x0 eps max_iter s) = inr (ev, x) ->
     (0 < max_iter)%Z -> length (heap s) <= base x).
Proof.
  destruct (grows_power_method A x0 eps max_iter s) as (hx & tx & E & _).
  split; [| split].
  - exists hx. rewrite E. reflexivity.
  - intros a Ha. rewrite E. apply read_old. exact Ha.
  - intros ev x Hr Hpos.
    destruct (power_method A x0 eps max_iter s) as [r s'] eqn:Hrun.
    simpl in Hr. subst r. unfold power_method in Hrun.
    destruct (negb (ndim A =? 2)); [discriminate|].
    apply bind_inr in Hrun. destruct Hrun as (x1 & s1 & E1 & Hrun).
    apply bind_inr in Hrun. destruct Hrun as (x2 & s2 & E2 & Hrun).
    apply eigen_estimate_vector in Hrun. subst x2.
    pose proof (grows_length _ _ _ _ _ (grows_initial_vector A x0) E1) as L1.
    apply power_loop_result in E2. destruct E2 as [[Hf _] | [_ Hf]]; lia.
Qed.

(** ** Runs on inputs whose shapes agree *)


Lemma length_zip_with (f : T -> T -> T) (u v : list T) :
  length (zip_with f u v) = Nat.min (length u) (length v).
Proof.
  revert v. induction u as [|a u IH]; intros [|b v]; simpl; auto.
Qed.

Lemma length_matvec (m n : nat) (a x : list T) : length (matvec m n a x) = m.
Proof. unfold matvec. rewrite length_map, length_seq. reflexivity. Qed.

Lemma length_scale_div (v : list T) (c : T) :
  length (scale_div v c) = length v.
Proof. unfold scale_div. apply length_map. Qed.

Lemma iterations_body (n : nat) (A x : ndarray) (eps : T) (s : state T) :
  iterations (body_events n A x eps s) = 1.
Proof. reflexivity. Qed.

Lemma matmuls_body (n : nat) (A x : ndarray) (eps : T) (s : state T) :
  matmuls (body_events n A x eps s) = 1.
Proof. reflexivity. Qed.

Lemma tests_body (n : nat) (A x : ndarray) (eps : T) (s : state T) :
  tests (body_events n A x eps s) = [body_test n A x eps s].
Proof. reflexivity. Qed.

(** What a run of the loop leaves, when [A] is [n] by [n] and the iterate
    has [n] elements: a vector of [n] elements, at most [fuel] passes, one
    product per pass, and convergence tests that all failed except, when the
    loop was left by [break], the last one. *)
Lemma power_loop_run (A : ndarray) (eps : T) (n : nat) :
  shape A = [n; n] ->
  forall (fuel : nat) (x : ndarray) (s : state T),
    shape x = [n] -> valid s x -> length (read s x) = n ->
    exists x' hx tx,
      power_loop A eps fuel x s =
      (inr x', mk_state (heap s ++ hx) (trace s ++ tx)) /\
      shape x' = [n] /\
      valid (mk_state (heap s ++ hx) (trace s ++ tx)) x' /\
      length (read (mk_state (heap s ++ hx) (trace s ++ tx)) x') = n /\
      iterations tx <= fuel /\
      matmuls tx = iterations tx /\
      ((1 <= iterations tx /\
        tests tx = repeat false (iterations tx - 1) ++ [true]) \/
       (iterations tx = fuel /\ tests tx = repeat false fuel)).
Proof.
  intros HA. induction fuel as [|fuel IH]; intros x s Hx Hv Hlen.
  - exists x, [], []. cbn [power_loop ret]. rewrite !app_nil_r.
    destruct s as [h t]. simpl. repeat split; auto.
  - rewrite (power_loop_step A x eps fuel n s HA Hx Hv).
    assert (Hv1 : valid (body_state n A x eps s) (body_result s n)).
    { unfold valid, body_state, body_result. cbn. rewrite length_app. cbn.
      lia. }
    assert (Hl1 : length (read (body_state n A x eps s) (body_result s n)) = n).
    { unfold body_state, body_result, read. cbn [heap base].
      replace (S (length (heap s))) with (length (heap s) + 1) by lia.
      rewrite app_nth2_plus. cbn [nth]. unfold body_next, body_product.
      rewrite length_scale_div, length_matvec. reflexivity. }
    destruct (body_test n A x eps s) eqn:Hb.
    + exists (body_result s n),
        [body_product n A x s; body_next n A x s; body_diff n A x s],
        (body_events n A x eps s).
      fold (body_state n A x eps s).
      rewrite iterations_body, matmuls_body, tests_body, Hb.
      repeat split; auto; try lia.
    + destruct (IH (body_result s n) (body_state n A x eps s) eq_refl Hv1 Hl1)
        as (x' & hx & tx & E & Hs & Hv' & Hl' & Hit & Hmm & Ht).
      exists x',
        ([body_product n A x s; body_next n A x s; body_diff n A x s] ++ hx),
        (body_events n A x eps s ++ tx).
      rewrite E. unfold body_state in *. cbn [heap trace] in *.
      rewrite !app_assoc.
      rewrite <- (app_assoc (trace s)).
      rewrite iterations_app, matmuls_app, tests_app.
      rewrite iterations_body, matmuls_body, tests_body, Hb.
      rewrite <- !app_assoc in Hv', Hl'. cbn [app] in Hv', Hl'.
      rewrite <- !app_assoc. cbn [app].
      repeat split; auto; try lia.
      destruct Ht as [[H1 H2] | [H1 H2]].
      * left. split; [lia|]. rewrite H2.
        replace (1 + iterations tx - 1) with (S (iterations tx - 1)) by lia.
        reflexivity.
      * right. split; [lia|]. rewrite H2. reflexivity.
Qed.

Lemma read_last (h : list (list T)) (t : list event) (d : list T)
    (sh : list nat) :
  read (mk_state (h ++ [d]) t) (mk_ndarray sh (length h)) = d.
Proof. unfold read. cbn [heap base]. apply nth_middle. Qed.

Lemma run_eigen_estimate (A x : ndarray) (n : nat) (s : state T) :
  shape A = [n; n] -> shape x = [n] -> valid s x -> 0 < n ->
  length (read s x) = n ->
  eigen_estimate A x s =
  (inr (max_all (quotients n (read s A) (read s x)), x),
   mk_state
     (heap s ++ [matvec n n (read s A) (read s x);
                 quotients n (read s A) (read s x)])
     (trace s ++ [Call_matmul A x;
                  Call_divide (mk_ndarray [n] (length (heap s))) x;
                  Call_max (mk_ndarray [n] (S (length (heap s))))])).
Proof.
  intros HA Hx Hv Hn Hlen. unfold eigen_estimate.
  unfold bind at 1. rewrite (run_np_matmul A x n n s HA Hx).
  unfold bind at 1.
  rewrite (run_np_divide_same _ _ n) by reflexivity || assumption.
  cbn [heap trace].
  rewrite read_last, (read_old s _ _ x Hv).
  fold (quotients n (read s A) (read s x)).
  unfold bind at 1. rewrite run_np_max; rewrite read_last.
  - unfold log_state. cbn [heap trace bind ret].
    rewrite <- !app_assoc. cbn [app]. rewrite length_app. cbn [length].
    replace (length (heap s) + 1) with (S (length (heap s))) by lia.
    reflexivity.
  - unfold quotients. intros E.
    apply (f_equal (@length T)) in E.
    rewrite length_zip_with, length_matvec, Hlen in E. cbn in E. lia.
Qed.

Lemma power_method_from (A : ndarray) (x0 : option ndarray) (eps : T)
    (max_iter : Z) (s s1 s' : state T) (x1 x' : ndarray) :
  ndim A = 2 ->
  initial_vector A x0 s = (inr x1, s1) ->
  power_loop A eps (Z.to_nat max_iter) x1 s1 = (inr x', s') ->
  bind (initial_vector A x0) (power_loop A eps (Z.to_nat max_iter)) s =
  (inr x', s') /\
  power_method A x0 eps max_iter s = eigen_estimate A x' s'.
Proof.
  intros H2 E0 E. rewrite (power_method_unfold A x0 eps max_iter s H2).
  unfold bind. rewrite E0, E. split; reflexivity.
Qed.

(** A call on inputs whose shapes agree: the loop returns a vector of [n]
    elements and line 52 is evaluated on it. *)
Lemma power_method_run (A : ndarray) (x0 : option ndarray) (eps : T)
    (max_iter : Z) (s : state T) (n : nat) :
  shape A = [n; n] -> fits s n x0 ->
  exists x hx tx,
    bind (initial_vector A x0) (power_loop A eps (Z.to_nat max_iter)) s =
    (inr x, mk_state (heap s ++ hx) (trace s ++ tx)) /\
    power_method A x0 eps max_iter s =
    eigen_estimate A x (mk_state (heap s ++ hx) (trace s ++ tx)) /\
    shape x = [n] /\
    valid (mk_state (heap s ++ hx) (trace s ++ tx)) x /\
    length (read (mk_state (heap s ++ hx) (trace s ++ tx)) x) = n /\
    iterations tx <= Z.to_nat max_iter /\
    matmuls tx = iterations tx /\
    ((1 <= iterations tx /\
      tests tx = repeat false (iterations tx - 1) ++ [true]) \/
     (iterations tx = Z.to_nat max_iter /\
      tests tx = repeat false (Z.to_nat max_iter))).
Proof.
  intros HA Hfit.
  assert (H2 : ndim A = 2) by (unfold ndim; rewrite HA; reflexivity).
  destruct x0 as [v|].
  - destruct Hfit as (Hsq & Hv & Hlen).
    set (x1 := mk_ndarray [n] (base v)).
    set (s1 := log_state s [Call_squeeze v]).
    assert (E0 : initial_vector A (Some v) s = (inr x1, s1)).
    { rewrite run_initial_vector_some, Hsq. reflexivity. }
    destruct (power_loop_run A eps n HA (Z.to_nat max_iter) x1 s1 eq_refl Hv
                Hlen)
      as (x' & hx & tx & E & Hs & Hv' & Hl' & Hit & Hmm & Ht).
    exists x', hx, (Call_squeeze v :: tx).
    unfold s1, log_state in *. cbn [heap trace] in *.
    rewrite <- app_assoc in E, Hv', Hl'. cbn [app] in E, Hv', Hl'.
    destruct (power_method_from A (Some v) eps max_iter s _ _ x1 x' H2 E0 E)
      as [E1 E2].
    repeat split; auto.
  - set (x1 := mk_ndarray [n] (length (heap s))).
    set (s1 := mk_state (heap s ++ [repeat one n]) (trace s ++ [Call_ones n])).
    assert (E0 : initial_vector A None s = (inr x1, s1)).
    { rewrite run_initial_vector_none, HA. reflexivity. }
    assert (Hv1 : valid s1 x1).
    { unfold valid, s1, x1. cbn. rewrite length_app. cbn. lia. }
    assert (Hl1 : length (read s1 x1) = n).
    { unfold read, s1, x1. cbn [heap base]. rewrite nth_middle.
      apply repeat_length. }
    destruct (power_loop_run A eps n HA (Z.to_nat max_iter) x1 s1 eq_refl Hv1
                Hl1)
      as (x' & hx & tx & E & Hs & Hv' & Hl' & Hit & Hmm & Ht).
    exists x', (repeat one n :: hx), (Call_ones n :: tx).
    unfold s1 in *. cbn [heap trace] in *.
    rewrite <- !app_assoc in E, Hv', Hl'. cbn [app] in E, Hv', Hl'.
    destruct (power_method_from A None eps max_iter s _ _ x1 x' H2 E0 E)
      as [E1 E2].
    repeat split; auto.
Qed.

(** A call on inputs whose shapes agree returns, and what it returns. *)
Lemma power_method_returns (A : ndarray) (x0 : option ndarray) (eps : T)
    (max_iter : Z) (s : state T) (n : nat) :
  shape A = [n; n] -> 0 < n -> valid s A -> fits s n x0 ->
  exists ev x s1 s',
    bind (initial_vector A x0) (power_loop A eps (Z.to_nat max_iter)) s =
    (inr x, s1) /\
    power_method A x0 eps max_iter s = (inr (ev, x), s') /\
    ev = max_all (quotients n (read s' A) (read s' x)) /\
    length (read s' x) = n /\
    exists t1,
      trace s1 = trace s ++ t1 /\ matmuls t1 = iterations t1 /\
      trace s' =
      trace s1 ++ [Call_matmul A x;
                   Call_divide (mk_ndarray [n] (length (heap s1))) x;
                   Call_max (mk_ndarray [n] (S (length (heap s1))))].
Proof.
  intros HA Hn HvA Hfit.
  destruct (power_method_run A x0 eps max_iter s n HA Hfit)
    as (x & hx & tx & E1 & E & Hs & Hv & Hl & _ & Hmm & _).
  rewrite (run_eigen_estimate A x n _ HA Hs Hv Hn Hl) in E.
  eexists _, x, _, _. split; [exact E1|]. split; [exact E|].
  cbn [heap trace].
  assert (HvA1 : valid (mk_state (heap s ++ hx) (trace s ++ tx)) A).
  { unfold valid in *. cbn. rewrite length_app. lia. }
  rewrite (read_old _ _ _ A HvA1), (read_old _ _ _ x Hv).
  split; [reflexivity|]. split; [exact Hl|]. exists tx. auto.
Qed.

(** C1, as the code has it.  When the shapes agree, [power_method] returns
    the final iterate [x] of the loop together with the NaN-propagating
    maximum of the quotients [(A @ x)[i] / x[i]] over _every_ component [i],
    those with [x[i] = 0] included.  The quotients come from a product of
    their own: the call ends with the three numpy calls [A @ x], [/], [max],
    and before them the loop made exactly one product per pass. *)
Theorem eigenvalue_is_max_over_all_components (A : ndarray)
    (x0 : option ndarray) (eps : T) (max_iter : Z) (s : state T) (n : nat) :
  shape A = [n; n] -> 0 < n -> valid s A -> fits s n x0 ->
  exists ev x s1 s',
    bind (initial_vector A x0) (power_loop A eps (Z.to_nat max_iter)) s =
    (inr x, s1) /\
    power_method A x0 eps max_iter s = (inr (ev, x), s') /\
    ev = max_all (quotients n (read s' A) (read s' x)) /\
    exists t1,
      trace s1 = trace s ++ t1 /\ matmuls t1 = iterations t1 /\
      trace s' =
      trace s1 ++ [Call_matmul A x;
                   Call_divide (mk_ndarray [n] (length (heap s1))) x;
                   Call_max (mk_ndarray [n] (S (length (heap s1))))].
Proof.
  intros HA Hn HvA Hfit.
  destruct (power_method_returns A x0 eps max_iter s n HA Hn HvA Hfit)
    as (ev & x & s1 & s' & E1 & E & Hev & _ & Ht).
  exists ev, x, s1, s'. auto.
Qed.


(** The validation block on a supplied vector that fits, or on none. *)
Lemma initial_vector_run (A : ndarray) (x0 : option ndarray) (s : state T)
    (n : nat) :
  shape A = [n; n] -> fits s n x0 ->
  exists x1 hx tx,
    initial_vector A x0 s =
    (inr x1, mk_state (heap s ++ hx) (trace s ++ tx)) /\
    shape x1 = [n] /\
    valid (mk_state (heap s ++ hx) (trace s ++ tx)) x1 /\
    length (read (mk_state (heap s ++ hx) (trace s ++ tx)) x1) = n /\
    iterations tx = 0.
Proof.
  intros HA Hfit. destruct x0 as [v|].
  - destruct Hfit as (Hsq & Hv & Hlen).
    exists (mk_ndarray [n] (base v)), [], [Call_squeeze v].
    rewrite run_initial_vector_some, Hsq, app_nil_r.
    unfold valid, read in *. cbn. auto.
  - exists (mk_ndarray [n] (length (heap s))), [repeat one n], [Call_ones n].
    rewrite run_initial_vector_none, HA. cbn [nth].
    unfold valid, read. cbn [heap base]. rewrite nth_middle, length_app.
    cbn [length]. rewrite repeat_length. repeat split; auto. lia.
Qed.


End Facts.

(** * IEEE-754 binary64: a division by zero, NaN and [np.max] *)



Lemma is_nan_SF (x : float) : Prim2SF x = S754_nan -> PrimFloat.is_nan x = true.
Proof. intros E. unfold PrimFloat.is_nan. rewrite eqb_spec, E. reflexivity. Qed.



Lemma SFeqb_refl_not_nan (f : spec_float) : f <> S754_nan -> SFeqb f f = true.
Proof.
  destruct f as [sa | sa | | sa m e]; intros Hn; try congruence.
  - reflexivity.
  - destruct sa; reflexivity.
  - unfold SFeqb, SFcompare. rewrite Z.compare_refl, Pos.compare_cont_refl.
    destruct sa; reflexivity.
Qed.

Lemma is_nan_inv (x : float) : PrimFloat.is_nan x = true -> Prim2SF x = S754_nan.
Proof.
  unfold PrimFloat.is_nan. rewrite eqb_spec. intros E.
  destruct (Prim2SF x) as [sa | sa | | sa m e] eqn:Ex; auto;
    rewrite SFeqb_refl_not_nan in E by discriminate; discriminate.
Qed.

Lemma leb_nan_l (x y : float) :
  PrimFloat.is_nan x = true -> PrimFloat.leb x y = false.
Proof. intros E. rewrite leb_spec, (is_nan_inv _ E). reflexivity. Qed.

(** [np.maximum] propagates NaN from either side. *)
Lemma np_maximum_nan_l (a b : float) :
  isnan a = true -> np_maximum a b = a.
Proof. intros E. unfold np_maximum. rewrite E, orb_true_r. reflexivity. Qed.

Lemma np_maximum_nan_r (a b : float) :
  isnan b = true -> isnan (np_maximum a b) = true.
Proof.
  intros E. unfold np_maximum.
  destruct (isnan a) eqn:Ea.
  - rewrite orb_true_r. exact Ea.
  - cbn [leb isnan float_Scalar] in *. rewrite (leb_nan_l b a E). exact E.
Qed.

Lemma max_reduce_nan_acc (v : list float) (a : float) :
  isnan a = true -> isnan (max_reduce a v) = true.
Proof.
  revert a. induction v as [|b v IH]; intros a Ha; cbn; [exact Ha|].
  apply IH. rewrite np_maximum_nan_l; assumption.
Qed.

Lemma max_reduce_nan (v : list float) (a : float) :
  Exists (fun q => isnan q = true) v -> isnan (max_reduce a v) = true.
Proof.
  intros Hex. revert a. induction Hex as [b v Hb | b v Hex IH]; intros a; cbn.
  - apply max_reduce_nan_acc. apply np_maximum_nan_r. exact Hb.
  - apply IH.
Qed.

Lemma max_all_nan (d : list float) :
  Exists (fun q => isnan q = true) d -> isnan (max_all d) = true.
Proof.
  intros Hex. unfold max_all. inversion Hex as [b v Hb | b v Hv]; subst; cbn.
  - apply max_reduce_nan_acc. exact Hb.
  - apply max_reduce_nan. exact Hv.
Qed.

(** * The passes of a run *)

Section Passes.

Context {T : Type} `{Scalar T}.

(** The reads of a pass look at the heap only. *)
Lemma body_next_heap (n : nat) (A x : ndarray) (s1 s2 : state T) :
  heap s1 = heap s2 -> body_next n A x s1 = body_next n A x s2.
Proof.
  intros E. unfold body_next, body_product, read. rewrite E. reflexivity.
Qed.

Lemma read_body_result (n : nat) (A x : ndarray) (eps : T) (s : state T) :
  read (body_state n A x eps s) (body_result s n) = body_next n A x s.
Proof.
  unfold body_state, body_result, read. cbn [heap base].
  replace (S (length (heap s))) with (length (heap s) + 1) by lia.
  rewrite app_nth2_plus. reflexivity.
Qed.


(** ** Loops that cannot break *)

(** A loop whose convergence test fails on every pass, by an invariant [Q]
    of the state and the iterate, makes all its passes. *)
Lemma power_loop_no_break (A : ndarray) (eps : T) (n : nat)
    (Q : state T -> ndarray -> Prop) :
  shape A = [n; n] ->
  (forall x s, shape x = [n] -> valid s x -> Q s x ->
     body_test n A x eps s = false /\
     Q (body_state n A x eps s) (body_result s n)) ->
  forall (fuel : nat) (x : ndarray) (s : state T),
    shape x = [n] -> valid s x -> Q s x ->
    exists x' hx tx,
      power_loop A eps fuel x s =
      (inr x', mk_state (heap s ++ hx) (trace s ++ tx)) /\
      shape x' = [n] /\
      valid (mk_state (heap s ++ hx) (trace s ++ tx)) x' /\
      Q (mk_state (heap s ++ hx) (trace s ++ tx)) x' /\
      iterations tx = fuel /\
      tests tx = repeat false fuel.
Proof.
  intros HA HQ. induction fuel as [|fuel IH]; intros x s Hx Hv Hq.
  - exists x, [], []. cbn [power_loop ret]. rewrite !app_nil_r.
    destruct s as [h t]. simpl. repeat split; auto.
  - rewrite (power_loop_step A x eps fuel n s HA Hx Hv).
    destruct (HQ x s Hx Hv Hq) as [Hb Hq1]. rewrite Hb.
    assert (Hv1 : valid (body_state n A x eps s) (body_result s n)).
    { unfold valid, body_state, body_result. cbn. rewrite length_app. cbn.
      lia. }
    destruct (IH (body_result s n) (body_state n A x eps s) eq_refl Hv1 Hq1)
      as (x' & hx & tx & E & Hs & Hv' & Hq' & Hit & Ht).
    exists x',
      ([body_product n A x s; body_next n A x s; body_diff n A x s] ++ hx),
      (body_events n A x eps s ++ tx).
    rewrite E. unfold body_state in *. cbn [heap trace] in *.
    rewrite !app_assoc.
    rewrite <- (app_assoc (trace s)).
    rewrite iterations_app, tests_app.
    rewrite iterations_body, tests_body, Hb.
    rewrite <- !app_assoc in Hv', Hq'. cbn [app] in Hv', Hq'.
    rewrite <- !app_assoc. cbn [app].
    repeat split; auto; try lia.
    rewrite Ht. reflexivity.
Qed.

Lemma initial_vector_trace (A : ndarray) (x0 : option ndarray) (s : state T)
    (x : ndarray) (hx : list (list T)) (tx : list event) :
  initial_vector A x0 s =
  (inr x, mk_state (heap s ++ hx) (trace s ++ tx)) ->
  iterations tx = 0 /\ tests tx = [].
Proof.
  intros E0. destruct x0 as [v|].
  - rewrite run_initial_vector_some in E0.
    destruct (length (squeezed (shape v)) =? 1); [| discriminate].
    unfold log_state in E0. inversion E0 as [[Hx Hh Ht]].
    apply app_inv_head in Ht. subst tx. split; reflexivity.
  - rewrite run_initial_vector_none in E0. inversion E0 as [[Hx Hh Ht]].
    apply app_inv_head in Ht. subst tx. split; reflexivity.
Qed.

(** A call whose loop cannot break, by an invariant [Q] that holds of the
    initial vector: all [max_iter] passes are made, and line 52 is evaluated
    on an iterate that satisfies [Q]. *)
Lemma power_method_no_break (A : ndarray) (x0 : option ndarray) (eps : T)
    (max_iter : Z) (s : state T) (n : nat) (Q : state T -> ndarray -> Prop) :
  shape A = [n; n] -> 0 < n -> fits s n x0 ->
  (forall x s, shape x = [n] -> valid s x -> Q s x ->
     body_test n A x eps s = false /\
     Q (body_state n A x eps s) (body_result s n)) ->
  (forall x s, Q s x -> length (read s x) = n) ->
  (forall x1 s0, initial_vector A x0 s = (inr x1, s0) -> Q s0 x1) ->
  exists x s1 hx tx,
    power_method A x0 eps max_iter s =
    (inr (max_all (quotients n (read s1 A) (read s1 x)), x),
     mk_state (heap s ++ hx) (trace s ++ tx)) /\
    Q s1 x /\
    read (mk_state (heap s ++ hx) (trace s ++ tx)) x = read s1 x /\
    iterations (trace s1) = iterations (trace s) + Z.to_nat max_iter /\
    iterations tx = Z.to_nat max_iter /\
    tests tx = repeat false (Z.to_nat max_iter).
Proof.
  intros HA Hn Hfit HQ Hlen Hinit.
  assert (H2 : ndim A = 2) by (unfold ndim; rewrite HA; reflexivity).
  destruct (initial_vector_run A x0 s n HA Hfit)
    as (x1 & hx0 & tx0 & E0 & Hs1 & Hv1 & _ & _).
  destruct (initial_vector_trace A x0 s x1 hx0 tx0 E0) as [Hi0 Ht0].
  pose proof (Hinit _ _ E0) as Hq0.
  destruct (power_loop_no_break A eps n Q HA HQ (Z.to_nat max_iter) x1 _
              Hs1 Hv1 Hq0)
    as (x & hx & tx & E & Hs & Hv & Hq & Hit & Ht).
  cbn [heap trace] in E, Hv, Hq.
  destruct (power_method_from A x0 eps max_iter s _ _ x1 x H2 E0 E)
    as [_ Erun].
  rewrite (run_eigen_estimate A x n _ HA Hs Hv Hn (Hlen _ _ Hq)) in Erun.
  set (s1 := mk_state ((heap s ++ hx0) ++ hx) ((trace s ++ tx0) ++ tx)) in *.
  exists x, s1,
    (hx0 ++ hx ++ [matvec n n (read s1 A) (read s1 x);
                   quotients n (read s1 A) (read s1 x)]),
    (tx0 ++ tx ++ [Call_matmul A x;
                   Call_divide (mk_ndarray [n] (length (heap s1))) x;
                   Call_max (mk_ndarray [n] (S (length (heap s1))))]).
  split.
  { rewrite Erun. unfold s1. cbn [heap trace].
    rewrite <- !app_assoc. reflexivity. }
  split; [exact Hq|]. split.
  { rewrite !app_assoc. apply (read_old s1 _ _ x Hv). }
  split.
  { unfold s1. cbn [trace]. rewrite !iterations_app, Hi0, Hit. lia. }
  rewrite !iterations_app, !tests_app, Hi0, Ht0, Hit, Ht.
  cbn. rewrite app_nil_r. split; [lia | reflexivity].
Qed.

(** ** The passes of a run, one after the other *)

Lemma valid_body_result (n : nat) (A x : ndarray) (eps : T) (s : state T) :
  valid (body_state n A x eps s) (body_result s n).
Proof.
  unfold valid, body_state, body_result. cbn. rewrite length_app. cbn. lia.
Qed.

Lemma length_read_body_result (n : nat) (A x : ndarray) (eps : T)
    (s : state T) :
  length (read (body_state n A x eps s) (body_result s n)) = n.
Proof.
  rewrite read_body_result. unfold body_next, body_product.
  rewrite length_scale_div, length_matvec. reflexivity.
Qed.

(** [k] passes append three buffers and seven events each. *)
Lemma after_passes_run (A : ndarray) (eps : T) (n k : nat) :
  forall (x : ndarray) (s : state T),
    shape x = [n] -> valid s x -> length (read s x) = n ->
    exists xp hx tx,
      after_passes n A eps k x s =
      (xp, mk_state (heap s ++ hx) (trace s ++ tx)) /\
      shape xp = [n] /\
      valid (mk_state (heap s ++ hx) (trace s ++ tx)) xp /\
      length (read (mk_state (heap s ++ hx) (trace s ++ tx)) xp) = n /\
      iterations tx = k /\
      (all_tests_fail n A eps k x s = true -> tests tx = repeat false k).
Proof.
  induction k as [|k IH]; intros x s Hx Hv Hl.
  - exists x, [], []. cbn [after_passes]. rewrite !app_nil_r.
    destruct s as [h t]. cbn [heap trace]. repeat split; auto.
  - destruct (IH (body_result s n) (body_state n A x eps s) eq_refl
                (valid_body_result n A x eps s)
                (length_read_body_result n A x eps s))
      as (xp & hx & tx & E & Hs & Hv' & Hl' & Hit & Ht).
    exists xp,
      ([body_product n A x s; body_next n A x s; body_diff n A x s] ++ hx),
      (body_events n A x eps s ++ tx).
    cbn [after_passes all_tests_fail]. rewrite E.
    unfold body_state in *. cbn [heap trace] in *.
    rewrite <- !app_assoc in Hv', Hl'. cbn [app] in Hv', Hl'.
    rewrite <- !app_assoc. cbn [app].
    split; [reflexivity|]. split; [exact Hs|]. split; [exact Hv'|].
    split; [exact Hl'|].
    change (Iter :: Call_matmul A x :: _) with (body_events n A x eps s ++ tx).
    rewrite iterations_app, tests_app, iterations_body, tests_body, Hit.
    split; [reflexivity|].
    intros Hf. apply andb_true_iff in Hf. destruct Hf as [Hb Hf].
    apply negb_true_iff in Hb. rewrite Hb, (Ht Hf). reflexivity.
Qed.


(** A run of the loop is a number [k] of passes whose tests fail, followed
    either by nothing, the fuel being used up, or by one more pass, whose
    test succeeds. *)
Lemma power_loop_passes (A : ndarray) (eps : T) (n : nat) :
  shape A = [n; n] ->
  forall (fuel : nat) (x : ndarray) (s : state T),
    shape x = [n] -> valid s x ->
    exists k,
      k <= fuel /\
      all_tests_fail n A eps k x s = true /\
      ((k = fuel /\
        power_loop A eps fuel x s =
        (inr (fst (after_passes n A eps k x s)),
         snd (after_passes n A eps k x s))) \/
       (k < fuel /\
        body_test n A (fst (after_passes n A eps k x s)) eps
          (snd (after_passes n A eps k x s)) = true /\
        power_loop A eps fuel x s =
        (inr (body_result (snd (after_passes n A eps k x s)) n),
         body_state n A (fst (after_passes n A eps k x s)) eps
           (snd (after_passes n A eps k x s))))).
Proof.
  intros HA. induction fuel as [|fuel IH]; intros x s Hx Hv.
  - exists 0. split; [lia|]. split; [reflexivity|]. left. auto.
  - rewrite (power_loop_step A x eps fuel n s HA Hx Hv).
    destruct (body_test n A x eps s) eqn:Hb.
    + exists 0. split; [lia|]. split; [reflexivity|]. right.
      cbn [after_passes fst snd]. split; [lia|]. auto.
    + destruct (IH (body_result s n) (body_state n A x eps s) eq_refl
                  (valid_body_result n A x eps s))
        as (k & Hk & Hf & Hcase).
      exists (S k). split; [lia|]. cbn [all_tests_fail after_passes].
      rewrite Hb, Hf. split; [reflexivity|].
      destruct Hcase as [[-> E] | (Hlt & Ht & E)].
      * left. auto.
      * right. split; [lia|]. auto.
Qed.

(** C5, as the code has it.  On every input the body of the loop is entered
    at most [max_iter] times ([range(max_iter)] gives [Z.to_nat max_iter]
    values).  When the shapes agree ([A] is [n] by [n] with [n] positive and
    [x0], if supplied, squeezes to [n] elements), the call makes a number
    [k] of passes whose test [norm(x_next - x) < eps] fails, each from the
    normalised product of the one before, and then leaves the loop in one of
    two ways: the range is used up ([k] is [max_iter]), or one more pass is
    made whose test succeeds.  In both ways line 52 is evaluated on the last
    iterate and the call returns the pair (eigenvalue, vector); the pair
    carries no mark of which of the two happened. *)
Theorem loop_stops_at_first_small_step (A : ndarray) (x0 : option ndarray)
    (eps : T) (max_iter : Z) (s : state T) :
  (exists hx tx,
     snd (power_method A x0 eps max_iter s) =
     mk_state (heap s ++ hx) (trace s ++ tx) /\
     iterations tx <= Z.to_nat max_iter) /\
  (forall n, shape A = [n; n] -> 0 < n -> fits s n x0 ->
   exists x1 s0 k xp sp ev x s',
     initial_vector A x0 s = (inr x1, s0) /\
     k <= Z.to_nat max_iter /\
     all_tests_fail n A eps k x1 s0 = true /\
     after_passes n A eps k x1 s0 = (xp, sp) /\
     power_method A x0 eps max_iter s = (inr (ev, x), s') /\
     ((k = Z.to_nat max_iter /\
       x = xp /\
       eigen_estimate A xp sp = (inr (ev, x), s') /\
       read s' x = read sp xp /\
       iterations (trace s') = iterations (trace s) + k) \/
      (k < Z.to_nat max_iter /\
       ltb (norm (zip_with sub (body_next n A xp sp) (read sp xp))) eps
       = true /\
       x = body_result sp n /\
       eigen_estimate A x (body_state n A xp eps sp) = (inr (ev, x), s') /\
       read s' x = body_next n A xp sp /\
       iterations (trace s') = iterations (trace s) + k + 1))).
Proof.
  split; [apply grows_power_method|].
  intros n HA Hn Hfit.
  assert (H2 : ndim A = 2) by (unfold ndim; rewrite HA; reflexivity).
  destruct (initial_vector_run A x0 s n HA Hfit)
    as (x1 & hx0 & tx0 & E0 & Hs1 & Hv1 & Hl1 & Hi0).
  set (s0 := mk_state (heap s ++ hx0) (trace s ++ tx0)) in *.
  destruct (power_loop_passes A eps n HA (Z.to_nat max_iter) x1 s0 Hs1 Hv1)
    as (k & Hk & Hf & Hcase).
  destruct (after_passes_run A eps n k x1 s0 Hs1 Hv1 Hl1)
    as (xp & hx & tx & Eap & Hsp & Hvp & Hlp & Hit & _).
  set (sp := mk_state (heap s0 ++ hx) (trace s0 ++ tx)) in *.
  rewrite Eap in Hcase. cbn [fst snd] in Hcase.
  assert (Hisp : iterations (trace sp) = iterations (trace s) + k).
  { unfold sp, s0. cbn [trace]. rewrite !iterations_app. lia. }
  destruct Hcase as [[Hkf E] | (Hlt & Hb & E)].
  - destruct (power_method_from A x0 eps max_iter s _ _ x1 xp H2 E0 E)
      as [_ Erun].
    pose proof (run_eigen_estimate A xp n sp HA Hsp Hvp Hn Hlp) as Ee.
    rewrite Ee in Erun.
    eexists x1, s0, k, xp, sp, _, xp, _.
    split; [exact E0|]. split; [exact Hk|]. split; [exact Hf|].
    split; [exact Eap|]. split; [exact Erun|]. left.
    split; [exact Hkf|]. split; [reflexivity|]. split; [exact Ee|].
    split; [apply (read_old sp _ _ xp Hvp)|].
    cbn [trace]. rewrite iterations_app, Hisp. cbn. lia.
  - destruct (power_method_from A x0 eps max_iter s _ _ x1 _ H2 E0 E)
      as [_ Erun].
    pose proof (run_eigen_estimate A (body_result sp n) n
                  (body_state n A xp eps sp) HA eq_refl
                  (valid_body_result n A xp eps sp) Hn
                  (length_read_body_result n A xp eps sp)) as Ee.
    rewrite Ee in Erun.
    eexists x1, s0, k, xp, sp, _, (body_result sp n), _.
    split; [exact E0|]. split; [exact Hk|]. split; [exact Hf|].
    split; [exact Eap|]. split; [exact Erun|]. right.
    split; [exact Hlt|]. split; [exact Hb|]. split; [reflexivity|].
    split; [exact Ee|]. split.
    + rewrite (read_old (body_state n A xp eps sp) _ _ (body_result sp n)
                 (valid_body_result n A xp eps sp)).
      apply read_body_result.
    + cbn [trace]. unfold body_state at 1. cbn [trace].
      rewrite !iterations_app, iterations_body, Hisp. cbn. lia.
Qed.

(** C8, as the code has it.  Let a first call on inputs whose shapes agree
    ([n] at least 2) return the vector [x].  A second call with [x0 = x]
    starts one more pass from [x]; when that pass meets the convergence test,
    the second call leaves the loop after this single pass and returns the
    normalised product [A @ x / norm(A @ x)], whose distance to [x] passes
    the test [< eps]. *)
Theorem rerun_converging_at_once (A : ndarray) (x0 : option ndarray)
    (eps : T) (max_iter : Z) (s s1 : state T) (n : nat) (ev : T)
    (x : ndarray) :
  shape A = [n; n] -> 1 < n -> fits s n x0 -> (0 < max_iter)%Z ->
  power_method A x0 eps max_iter s = (inr (ev, x), s1) ->
  body_test n A x eps s1 = true ->
  exists ev' x' s2 t,
    power_method A (Some x) eps max_iter s1 = (inr (ev', x'), s2) /\
    trace s2 = trace s1 ++ t /\ iterations t = 1 /\
    read s2 x' = body_next n A x s1 /\
    ltb (norm (zip_with sub (read s2 x') (read s2 x))) eps = true.
Proof.
  intros HA Hn Hfit Hpos Hrun Htest.
  assert (H2 : ndim A = 2) by (unfold ndim; rewrite HA; reflexivity).
  assert (Hn0 : 0 < n) by lia.
  (* the vector of the first call *)
  destruct (power_method_run A x0 eps max_iter s n HA Hfit)
    as (x_ & hx & tx & _ & E & Hs & Hv & Hl & _).
  rewrite (run_eigen_estimate A x_ n _ HA Hs Hv Hn0 Hl) in E.
  rewrite Hrun in E. inversion E; subst x_ s1. clear E.
  set (s1 := mk_state _ _) in *.
  assert (Hv1 : valid s1 x).
  { unfold valid, s1 in *. cbn [heap] in *. rewrite length_app. lia. }
  assert (Hl1 : length (read s1 x) = n).
  { unfold s1. rewrite (read_old _ _ _ x Hv). exact Hl. }
  clearbody s1.
  (* the second call *)
  destruct x as [sh b]. cbn [shape] in Hs. subst sh.
  set (x := mk_ndarray [n] b) in *.
  assert (Hsq : squeezed [n] = [n]).
  { unfold squeezed. cbn. destruct (Nat.eqb_spec n 1); [lia | reflexivity]. }
  assert (E0 : initial_vector A (Some x) s1 =
               (inr x, log_state s1 [Call_squeeze x])).
  { rewrite run_initial_vector_some. cbn [shape x]. rewrite Hsq. reflexivity. }
  destruct (Z.to_nat max_iter) as [|fuel] eqn:Hfuel; [lia|].
  set (s1' := log_state s1 [Call_squeeze x]) in *.
  assert (Hv1' : valid s1' x) by exact Hv1.
  assert (Htest' : body_test n A x eps s1' = true) by exact Htest.
  assert (Eloop : power_loop A eps (Z.to_nat max_iter) x s1' =
                  (inr (body_result s1' n), body_state n A x eps s1')).
  { rewrite Hfuel, (power_loop_step A x eps fuel n s1' HA eq_refl Hv1').
    rewrite Htest'. reflexivity. }
  destruct (power_method_from A (Some x) eps max_iter s1 _ _ x _ H2 E0 Eloop)
    as [_ Erun].
  assert (Hvr : valid (body_state n A x eps s1') (body_result s1' n)).
  { unfold valid, body_state, body_result. cbn. rewrite length_app. cbn.
    lia. }
  assert (Hvx : valid (body_state n A x eps s1') x).
  { unfold valid, body_state in *. cbn [heap]. rewrite length_app. lia. }
  assert (Hlr : length (read (body_state n A x eps s1') (body_result s1' n))
                = n).
  { rewrite read_body_result. unfold body_next, body_product.
    rewrite length_scale_div, length_matvec. reflexivity. }
  rewrite (run_eigen_estimate A (body_result s1' n) n _ HA eq_refl Hvr Hn0
             Hlr) in Erun.
  eexists _, _, _, _. split; [exact Erun|].
  split.
  { cbn [trace]. unfold body_state. cbn [trace]. unfold s1' at 1.
    unfold log_state. cbn [trace]. rewrite <- !app_assoc. reflexivity. }
  split; [reflexivity|].
  rewrite (read_old _ _ _ _ Hvr), (read_old _ _ _ _ Hvx), read_body_result.
  split; [reflexivity|].
  unfold body_state, read. cbn [heap base x].
  rewrite app_nth1 by exact Hv1. exact Htest.
Qed.

End Passes.

(** * IEEE-754 binary64: where a division by zero leads *)

(** ** NaN and the infinities absorb the arithmetic of a pass *)








Lemma binary_round_aux_sign (sx : bool) (mx ex : Z) (lx : location) :
  match binary_round_aux prec emax sx mx ex lx with
  | S754_zero sg | S754_infinity sg | S754_finite sg _ _ => sg = sx
  | S754_nan => True
  end.
Proof.
  unfold binary_round_aux.
  destruct (shr_fexp prec emax mx ex lx) as [mrs e'].
  destruct (shr_fexp prec emax _ e' loc_Exact) as [mrs' e''].
  destruct (shr_m mrs'); auto.
  destruct (Z.leb e'' (emax - prec)); reflexivity.
Qed.

(** A square root is NaN, a zero, or positive. *)
Lemma SFsqrt_sign (f : spec_float) :
  match SFsqrt prec emax f with
  | S754_infinity sg | S754_finite sg _ _ => sg = false
  | _ => True
  end.
Proof.
  destruct f as [sg | [|] | | [|] m e]; cbn; auto.
  destruct (SFsqrt_core_binary prec emax (Z.pos m) e) as [[mz ez] lz].
  pose proof (binary_round_aux_sign false mz ez lz) as Hs.
  destruct (binary_round_aux prec emax false mz ez lz); auto.
Qed.









Lemma length_row {T : Type} (n : nat) (a : list T) (i : nat) :
  (i + 1) * n <= length a -> length (row n a i) = n.
Proof.
  intros Hl. unfold row. rewrite length_firstn, length_skipn. nia.
Qed.


Lemma Forall_Exists_nonempty {X} (P : X -> Prop) (l : list X) :
  0 < length l -> Forall P l -> Exists P l.
Proof.
  intros Hl Hall. destruct Hall as [|a l Ha Hall]; [cbn in Hl; lia|].
  left. exact Ha.
Qed.



Lemma length_body_next {T : Type} `{Scalar T} (n : nat) (A x : ndarray)
    (s : state T) :
  length (body_next n A x s) = n.
Proof.
  unfold body_next, body_product.
  rewrite length_scale_div, length_matvec. reflexivity.
Qed.

(** ** The pass that divides by a norm of zero, and the passes after it *)




(** ** [np.max] and the positive infinity *)


Lemma not_nan_SF (q : float) :
  PrimFloat.is_nan q = false -> Prim2SF q <> S754_nan.
Proof.
  intros E Hq. rewrite (is_nan_SF _ Hq) in E. discriminate.
Qed.

Lemma np_maximum_not_nan (a b : float) :
  isnan a = false -> isnan b = false -> isnan (np_maximum a b) = false.
Proof.
  intros Ha Hb. unfold np_maximum. destruct (leb b a || isnan a); assumption.
Qed.






(** ** A norm that overflows *)


(** ** The norm of a vector of NaNs and infinities *)


(** ** The claims on division by zero and on the norm of the result *)




(** * Concrete calls *)

(** C1, counterexample.  For [A = [[2,0],[0,1]]] and [x0 = [1,0]] the loop
    leaves [x = [1,0]]; the claimed maximum over the components with
    [x[i] <> 0] is 2, the returned eigenvalue is NaN (from [0/0]). *)
Lemma eigenvalue_counts_zero_components :
  match power_method A_2x2 (Some x_2) eps_default 10000 caller_diag with
  | (inr (ev, x), s') =>
      read s' x = [1; 0]%float /\
      claimed_eigenvalue 2 (read s' A_2x2) (read s' x) = 2%float /\
      PrimFloat.is_nan ev = true /\
      PrimFloat.eqb ev (claimed_eigenvalue 2 (read s' A_2x2) (read s' x))
      = false
  | _ => False
  end.
Proof. vm_compute. repeat split; reflexivity. Qed.


(** C3, counterexample.  With [max_iter = 0] the loop is not entered, and a
    matrix of one row or of one column is broadcast against the vector in
    line 52: for [A = [[1,2,3]]] the call returns 6 with the vector of ones;
    for the column [A = [[1],[2],[3]]] it returns 3, with [max_iter = 0] and
    with [max_iter = -5]. *)
Lemma nonsquare_matrix_returns_without_loop :
  fst (power_method (mk_ndarray [1; 3] 0) None eps_default 0 caller_row) =
  inr (6%float, mk_ndarray [3] 1) /\
  fst (power_method (mk_ndarray [3; 1] 0) None eps_default 0 caller_row) =
  inr (3%float, mk_ndarray [1] 1) /\
  fst (power_method (mk_ndarray [3; 1] 0) None eps_default (-5) caller_row) =
  inr (3%float, mk_ndarray [1] 1).
Proof. vm_compute. repeat split; reflexivity. Qed.

(** C5, counterexample.  [A = [[-1,-2,-3]]] is 2D and [x0] is left out, so
    the validation passes.  With [max_iter = 1] the single pass fails the
    test, the range is used up, and the product of line 52 raises numpy's
    mismatch of a matrix with 3 columns and a vector of 1 element: no pair
    is returned. *)
Lemma one_row_matrix_exhausts_then_raises :
  ndim (mk_ndarray [1; 3] 0) = 2 /\
  match power_method (mk_ndarray [1; 3] 0) None eps_default 1
          caller_row_neg with
  | (inl e, s') =>
      e = NumpyValueError (MatmulMismatch 3 1) /\
      iterations (trace s') = 1 /\ tests (trace s') = [false]
  | _ => False
  end.
Proof. vm_compute. repeat split; reflexivity. Qed.

(** C8, counterexample.  [A = [[1.5,-0.5],[-0.5,1.5]]] and an [x0] close to
    the eigenvector (1,1) of the smaller eigenvalue: the first call
    converges in one pass, with eigenvalue about 1; the second call, given
    the returned vector as [x0], runs 46 passes and returns the eigenvector
    (1,-1) with eigenvalue about 2.  Vector and eigenvalue both moved by
    more than 1, with [eps = 1e-7]. *)
Lemma rerun_leaves_converged_vector :
  match power_method A_2x2 (Some x_2) eps_default 10000 caller_sym with
  | (inr (ev1, x1), s1) =>
      tests (trace s1) = [true] /\
      match power_method A_2x2 (Some x1) eps_default 10000 s1 with
      | (inr (ev2, x2), s2) =>
          iterations (trace s2) = 1 + 46 /\
          PrimFloat.ltb (norm (zip_with sub (read s2 x2) (read s2 x1)))
            eps_default = false /\
          PrimFloat.leb 1 (norm (zip_with sub (read s2 x2) (read s2 x1)))
          = true /\
          PrimFloat.ltb (PrimFloat.abs (ev2 - ev1)) eps_default = false /\
          PrimFloat.leb 0.5 (PrimFloat.abs (ev2 - ev1)) = true
      | _ => False
      end
  | _ => False
  end.
Proof. vm_compute. repeat split; reflexivity. Qed.

(** ** Further concrete runs *)

(** A product of norm zero, then NaN all the way to the result. *)
Example zero_matrix_result :
  fst (power_method A_2x2 None eps_default 3 caller_zero) =
  inr (PrimFloat.nan, mk_ndarray [2] 9).
Proof. vm_compute. reflexivity. Qed.

(** A zero denominator in line 52 with a non-zero numerator: infinity. *)
Example swap_matrix_result :
  fst (power_method A_2x2 (Some x_2) eps_default 1 caller_swap) =
  inr (PrimFloat.infinity, mk_ndarray [2] 3).
Proof. vm_compute. reflexivity. Qed.

(** A norm that overflows: for [A = 1e200 * I] and the default [x0] the
    product is [[1e200, 1e200]], the sum of its squares is infinite, and the
    vector returned after one pass is [[0, 0]], of norm 0. *)
Example huge_matrix_returns_zero_vector :
  match power_method A_2x2 None eps_default 1 caller_huge with
  | (inr (ev, x), s') =>
      read s' x = [0; 0]%float /\
      norm (read s' x) = 0%float /\
      unit_norm_within 0.5%float (read s' x) = false
  | _ => False
  end.
Proof. vm_compute. repeat split; reflexivity. Qed.

(** A vector of shape (1,) squeezes to zero dimensions: rejected, although
    the message names the shape (n,). *)
Example length_one_vector_rejected :
  fst (power_method (mk_ndarray [1; 1] 0) (Some (mk_ndarray [1] 1))
         eps_default 10000 (mk_state [[2]; [1]]%float [])) =
  inl (ValueError msg_x0).
Proof. vm_compute. reflexivity. Qed.

(** The demonstration of [__main__]: [A = [[1,2,1],[1,1,2],[3,1,1]]]. *)
Example main_demo :
  match power_method (mk_ndarray [3; 3] 0) (Some (mk_ndarray [3] 1))
          eps_default 10000
          (mk_state [[1; 2; 1; 1; 1; 2; 3; 1; 1]; [1; 1; 1]]%float []) with
  | (inr (alpha, x), s') =>
      alpha = 0x1.139afbb2f0b52p+2%float /\ iterations (trace s') = 13
  | _ => False
  end.
Proof. vm_compute. repeat split; reflexivity. Qed.

(** * The theorems at concrete calls *)

Lemma nonsquare_matrix_shape_error_witness :
  exists e s',
    power_method (mk_ndarray [1; 3] 0) None eps_default 10000 caller_row =
    (inl e, s') /\
    is_shape_error e = true.
Proof.
  apply (nonsquare_matrix_shape_error (mk_ndarray [1; 3] 0) None eps_default
           10000 caller_row 1 3); [reflexivity | lia | lia].
Defined.

Lemma x0_length_mismatch_shape_error_witness :
  exists s',
    power_method A_2x2 (Some (mk_ndarray [3; 1] 1)) eps_default 10000
      (mk_state [[2; 0; 0; 1]; [1; 1; 1]]%float []) =
    (inl (NumpyValueError (MatmulMismatch 2 3)), s') /\
    is_shape_error (NumpyValueError (MatmulMismatch 2 3)) = true.
Proof.
  apply (x0_length_mismatch_shape_error A_2x2 (mk_ndarray [3; 1] 1)
           eps_default 10000 _ 2 3); [reflexivity | reflexivity | lia].
Defined.

Lemma fits_caller_diag : fits caller_diag 2 (Some x_2).
Proof. unfold fits, valid. cbn. repeat split; lia. Defined.

Lemma eigenvalue_is_max_over_all_components_witness :
  exists ev x s1 s',
    bind (initial_vector A_2x2 (Some x_2))
      (power_loop A_2x2 eps_default (Z.to_nat 10000)) caller_diag =
    (inr x, s1) /\
    power_method A_2x2 (Some x_2) eps_default 10000 caller_diag =
    (inr (ev, x), s') /\
    ev = max_all (quotients 2 (read s' A_2x2) (read s' x)) /\
    exists t1,
      trace s1 = trace caller_diag ++ t1 /\ matmuls t1 = iterations t1 /\
      trace s' =
      trace s1 ++ [Call_matmul A_2x2 x;
                   Call_divide (mk_ndarray [2] (length (heap s1))) x;
                   Call_max (mk_ndarray [2] (S (length (heap s1))))].
Proof.
  apply (eigenvalue_is_max_over_all_components A_2x2 (Some x_2) eps_default
           10000 caller_diag 2);
    [reflexivity | lia | unfold valid; cbn; lia | exact fits_caller_diag].
Defined.



Lemma loop_stops_at_first_small_step_witness :
  exists x1 s0 k xp sp ev x s',
    initial_vector A_2x2 None caller_twice = (inr x1, s0) /\
    k <= Z.to_nat 10000 /\
    all_tests_fail 2 A_2x2 eps_default k x1 s0 = true /\
    after_passes 2 A_2x2 eps_default k x1 s0 = (xp, sp) /\
    power_method A_2x2 None eps_default 10000 caller_twice =
    (inr (ev, x), s') /\
    ((k = Z.to_nat 10000 /\
      x = xp /\
      eigen_estimate A_2x2 xp sp = (inr (ev, x), s') /\
      read s' x = read sp xp /\
      iterations (trace s') = iterations (trace caller_twice) + k) \/
     (k < Z.to_nat 10000 /\
      ltb (norm (zip_with sub (body_next 2 A_2x2 xp sp) (read sp xp)))
        eps_default = true /\
      x = body_result sp 2 /\
      eigen_estimate A_2x2 x (body_state 2 A_2x2 xp eps_default sp) =
      (inr (ev, x), s') /\
      read s' x = body_next 2 A_2x2 xp sp /\
      iterations (trace s') = iterations (trace caller_twice) + k + 1)).
Proof.
  apply (proj2 (loop_stops_at_first_small_step A_2x2 None eps_default 10000
                  caller_twice) 2); [reflexivity | lia | exact I].
Defined.

Lemma rerun_converging_at_once_witness :
  exists ev' x' s2 t,
    power_method A_2x2 (Some (snd (returned first_run_twice))) eps_default
      10000 (snd first_run_twice) =
    (inr (ev', x'), s2) /\
    trace s2 = trace (snd first_run_twice) ++ t /\ iterations t = 1 /\
    read s2 x' =
    body_next 2 A_2x2 (snd (returned first_run_twice)) (snd first_run_twice) /\
    ltb (norm (zip_with sub (read s2 x')
                 (read s2 (snd (returned first_run_twice)))))
      eps_default = true.
Proof.
  apply (rerun_converging_at_once A_2x2 None eps_default 10000 caller_twice
           (snd first_run_twice) 2 (fst (returned first_run_twice))
           (snd (returned first_run_twice)));
    [reflexivity | lia | exact I | lia
    | vm_compute; reflexivity | vm_compute; reflexivity].
Defined.

Lemma validation_errors_before_iteration_witness :
  power_method (mk_ndarray [3] 0) None eps_default 10000 caller_row =
  (inl (ValueError msg_A), caller_row).
Proof.
  apply (proj1 (validation_errors_before_iteration (mk_ndarray [3] 0) None
                  eps_default 10000 caller_row)).
  cbn. lia.
Defined.

Lemma caller_arrays_not_mutated_witness :
  read (snd (power_method A_2x2 (Some x_2) eps_default 10000 caller_diag))
    A_2x2 = read caller_diag A_2x2 /\
  read (snd (power_method A_2x2 (Some x_2) eps_default 10000 caller_diag))
    x_2 = read caller_diag x_2.
Proof.
  split;
    apply (proj1 (proj2 (caller_arrays_not_mutated A_2x2 (Some x_2)
                           eps_default 10000 caller_diag)));
    unfold valid; cbn; lia.
Defined.

Lemma x0_validation_by_squeezed_shape_witness :
  initial_vector A_2x2 (Some (mk_ndarray [1; 2; 1] 1)) caller_diag =
  (inr (mk_ndarray [2] 1),
   log_state caller_diag [Call_squeeze (mk_ndarray [1; 2; 1] 1)]).
Proof.
  apply (proj1 (x0_validation_by_squeezed_shape A_2x2
                  (mk_ndarray [1; 2; 1] 1) eps_default 10000 caller_diag
                  1 1 2));
    [lia | reflexivity].
Defined.

(** * Further properties of [power_method] *)

Section Further.

Context {T : Type} `{Scalar T}.

(** ** A call that does not enter the loop *)

(** X1.  With [max_iter] zero or negative and shapes that agree, no pass is
    made: the vector returned is the squeezed view of the caller's [x0], on
    the caller's own buffer and not normalised, and the eigenvalue is the
    maximum of the quotients of [A @ x0] by [x0]; the call allocates the
    product and the quotients and nothing else. *)
Theorem no_pass_returns_view_of_x0 (A v : ndarray) (eps : T) (max_iter : Z)
    (s : state T) (n : nat) :
  shape A = [n; n] -> 0 < n -> fits s n (Some v) -> (max_iter <= 0)%Z ->
  power_method A (Some v) eps max_iter s =
  (inr (max_all (quotients n (read s A) (read s v)),
        mk_ndarray [n] (base v)),
   mk_state
     (heap s ++ [matvec n n (read s A) (read s v);
                 quotients n (read s A) (read s v)])
     (trace s ++ [Call_squeeze v;
                  Call_matmul A (mk_ndarray [n] (base v));
                  Call_divide (mk_ndarray [n] (length (heap s)))
                    (mk_ndarray [n] (base v));
                  Call_max (mk_ndarray [n] (S (length (heap s))))])).
Proof.
  intros HA Hn (Hsq & Hv & Hlen) Hpos.
  assert (H2 : ndim A = 2) by (unfold ndim; rewrite HA; reflexivity).
  rewrite (power_method_unfold A (Some v) eps max_iter s H2).
  unfold bind at 1. rewrite run_initial_vector_some, Hsq. cbn [length Nat.eqb].
  replace (Z.to_nat max_iter) with 0 by lia.
  unfold bind at 1. cbn [power_loop ret].
  rewrite (run_eigen_estimate A (mk_ndarray [n] (base v)) n
             (log_state s [Call_squeeze v]) HA eq_refl Hv Hn Hlen).
  unfold log_state, read. cbn [heap trace base].
  rewrite <- app_assoc. reflexivity.
Qed.

(** ** An empty matrix *)

Lemma run_np_max_empty (v : ndarray) (s : state T) :
  read s v = [] ->
  np_max v s =
  (inl (NumpyValueError ZeroSizeReduction), log_state s [Call_max v]).
Proof.
  intros E. unfold np_max, bind, log, get_data. simpl.
  change (read (mk_state (heap s) (trace s ++ [Call_max v])) v)
    with (read s v).
  rewrite E. reflexivity.
Qed.

(** X2.  A matrix of shape (0, 0) passes the validation, the loop runs on
    empty vectors, and line 52 fails in [np.max], which has no maximum of an
    empty array: the call raises numpy's [ValueError] for a zero-size
    reduction, whatever [x0] (default or of no element), [eps] and
    [max_iter] are. *)
Theorem empty_matrix_raises_zero_size (A : ndarray) (x0 : option ndarray)
    (eps : T) (max_iter : Z) (s : state T) :
  shape A = [0; 0] -> fits s 0 x0 ->
  exists s',
    power_method A x0 eps max_iter s =
    (inl (NumpyValueError ZeroSizeReduction), s') /\
    is_shape_error (NumpyValueError ZeroSizeReduction) = false.
Proof.
  intros HA Hfit.
  destruct (power_method_run A x0 eps max_iter s 0 HA Hfit)
    as (x & hx & tx & _ & E & Hs & Hv & Hl & _).
  rewrite E. unfold eigen_estimate.
  unfold bind at 1. rewrite (run_np_matmul A x 0 0 _ HA Hs).
  unfold bind at 1.
  rewrite (run_np_divide_same _ _ 0) by reflexivity || assumption.
  unfold bind at 1. rewrite run_np_max_empty.
  - eauto.
  - rewrite read_last. cbn [heap]. rewrite read_last. reflexivity.
Qed.

(** ** A matrix of one row, the loop not entered *)

Lemma initial_vector_run_cols (A : ndarray) (x0 : option ndarray)
    (s : state T) (m n : nat) :
  shape A = [m; n] -> fits s n x0 ->
  exists x1 hx tx,
    initial_vector A x0 s =
    (inr x1, mk_state (heap s ++ hx) (trace s ++ tx)) /\
    shape x1 = [n] /\
    valid (mk_state (heap s ++ hx) (trace s ++ tx)) x1 /\
    length (read (mk_state (heap s ++ hx) (trace s ++ tx)) x1) = n.
Proof.
  intros HA Hfit. destruct x0 as [v|].
  - destruct Hfit as (Hsq & Hv & Hlen).
    exists (mk_ndarray [n] (base v)), [], [Call_squeeze v].
    rewrite run_initial_vector_some, Hsq, app_nil_r.
    unfold valid, read in *. cbn. auto.
  - exists (mk_ndarray [n] (length (heap s))), [repeat one n], [Call_ones n].
    rewrite run_initial_vector_none, HA. cbn [nth].
    unfold valid, read. cbn [heap base]. rewrite nth_middle, length_app.
    cbn [length]. rewrite repeat_length. repeat split; auto. lia.
Qed.

Lemma run_np_divide_row (a b : ndarray) (n : nat) (s : state T) :
  shape a = [1] -> shape b = [n] -> n <> 1 ->
  np_divide a b s =
  (inr (mk_ndarray [n] (length (heap s))),
   mk_state (heap s ++ [map (div (nth 0 (read s a) zero)) (read s b)])
            (trace s ++ [Call_divide a b])).
Proof.
  intros Ha Hb Hn. unfold np_divide, bind, log. simpl.
  unfold broadcast. simpl. rewrite Ha, Hb. unfold bind, get_data. simpl.
  destruct (Nat.eqb_spec 1 n) as [E|_]; [congruence|].
  destruct n as [|[|n]]; try congruence; reflexivity.
Qed.

(** X3.  Squareness is not checked.  For a matrix of one row, of shape
    (1, n) with [n] at least 2, and [max_iter] zero or negative, no product
    is made in the loop and line 52 broadcasts the single component of
    [A @ x] against the [n] components of [x]: the call returns the maximum
    of [(A @ x)[0] / x[i]] with the initial vector, and raises nothing. *)
Theorem one_row_matrix_without_loop (A : ndarray) (x0 : option ndarray)
    (eps : T) (max_iter : Z) (s : state T) (n : nat) :
  shape A = [1; n] -> 1 < n -> valid s A -> fits s n x0 ->
  (max_iter <= 0)%Z ->
  exists x s1 s',
    initial_vector A x0 s = (inr x, s1) /\
    power_method A x0 eps max_iter s =
    (inr (max_all (row_quotients n (read s' A) (read s' x)), x), s') /\
    iterations (trace s') = iterations (trace s).
Proof.
  intros HA Hn HvA Hfit Hpos.
  assert (H2 : ndim A = 2) by (unfold ndim; rewrite HA; reflexivity).
  destruct (initial_vector_run_cols A x0 s 1 n HA Hfit)
    as (x & hx & tx & E0 & Hs & Hv & Hl).
  assert (Hit : iterations tx = 0).
  { destruct x0 as [v|].
    - rewrite run_initial_vector_some in E0.
      destruct (length (squeezed (shape v)) =? 1); [| discriminate].
      unfold log_state in E0. inversion E0 as [[Hx Hh Ht]].
      apply app_inv_head in Ht. subst tx. reflexivity.
    - rewrite run_initial_vector_none in E0. inversion E0 as [[Hx Hh Ht]].
      apply app_inv_head in Ht. subst tx. reflexivity. }
  set (s1 := mk_state (heap s ++ hx) (trace s ++ tx)) in *.
  assert (HvA1 : valid s1 A).
  { unfold valid, s1 in *. cbn. rewrite length_app. lia. }
  rewrite (power_method_unfold A x0 eps max_iter s H2).
  unfold bind at 1. rewrite E0.
  replace (Z.to_nat max_iter) with 0 by lia.
  unfold bind at 1. cbn [power_loop ret]. unfold eigen_estimate.
  unfold bind at 1. rewrite (run_np_matmul A x 1 n s1 HA Hs).
  unfold bind at 1.
  rewrite (run_np_divide_row _ x n) by (try reflexivity; try assumption; lia).
  rewrite read_last. cbn [heap trace].
  rewrite (read_old s1 _ _ x Hv).
  change (nth 0 (matvec 1 n (read s1 A) (read s1 x)) zero)
    with (dot (row n (read s1 A) 0) (read s1 x)).
  fold (row_quotients n (read s1 A) (read s1 x)).
  unfold bind at 1. rewrite run_np_max; rewrite read_last.
  - unfold log_state, ret. cbn [heap trace].
    match goal with |- exists _ _ _, _ /\ (_, ?st) = _ /\ _ =>
      assert (EA : read st A = read s1 A)
        by (unfold read; cbn [heap]; rewrite <- app_assoc; apply app_nth1;
            exact HvA1);
      assert (Ex : read st x = read s1 x)
        by (unfold read; cbn [heap]; rewrite <- app_assoc; apply app_nth1;
            exact Hv);
      exists x, s1, st
    end.
    split; [reflexivity|]. split.
    + rewrite EA, Ex. reflexivity.
    + cbn [trace]. unfold s1. cbn [trace].
      rewrite !iterations_app, Hit. cbn. lia.
  - unfold row_quotients. intros E.
    apply (f_equal (@length T)) in E. rewrite length_map, Hl in E.
    cbn in E. lia.
Qed.

(** ** The trace is a ghost: results depend on the heap only *)

Lemma heap_only_ret {X} (x : X) : heap_only (ret (T := T) x).
Proof. intros s1 s2 E. cbn. auto. Qed.

Lemma heap_only_raise {X} (e : exn) : heap_only (raise (T := T) (X := X) e).
Proof. intros s1 s2 E. cbn. auto. Qed.

Lemma heap_only_log (e : event) : heap_only (log (T := T) e).
Proof. intros s1 s2 E. cbn. auto. Qed.

Lemma heap_only_get_data (a : ndarray) : heap_only (get_data (T := T) a).
Proof. intros s1 s2 E. unfold get_data, read. cbn. rewrite E. auto. Qed.

Lemma heap_only_alloc (sh : list nat) (d : list T) : heap_only (alloc sh d).
Proof. intros s1 s2 E. unfold alloc. cbn. rewrite E. auto. Qed.

Lemma heap_only_bind {X Y} (m : M T X) (f : X -> M T Y) :
  heap_only m -> (forall x, heap_only (f x)) -> heap_only (bind m f).
Proof.
  intros Hm Hf s1 s2 E. unfold bind. destruct (Hm s1 s2 E) as [Er Eh].
  destruct (m s1) as [[e1|x1] t1], (m s2) as [[e2|x2] t2]; cbn in *;
    try discriminate.
  - inversion Er. auto.
  - inversion Er; subst x2. apply Hf. exact Eh.
Qed.

Lemma heap_only_if {X} (c : bool) (m1 m2 : M T X) :
  heap_only m1 -> heap_only m2 -> heap_only (if c then m1 else m2).
Proof. destruct c; auto. Qed.

Ltac heap_only_step :=
  first
    [ apply heap_only_ret | apply heap_only_raise | apply heap_only_log
    | apply heap_only_get_data | apply heap_only_alloc
    | apply heap_only_bind; [| intros ?] | apply heap_only_if ].

Lemma heap_only_np_matmul (a x : ndarray) : heap_only (np_matmul (T := T) a x).
Proof.
  unfold np_matmul. apply heap_only_bind; [heap_only_step | intros _].
  destruct (shape a) as [|m [|n [|? ?]]]; try apply heap_only_raise;
    destruct (shape x) as [|k [|? ?]]; try apply heap_only_raise.
  repeat heap_only_step.
Qed.

Lemma heap_only_np_linalg_norm (v : ndarray) :
  heap_only (np_linalg_norm (T := T) v).
Proof. unfold np_linalg_norm. repeat heap_only_step. Qed.

Lemma heap_only_np_divide_scalar (v : ndarray) (c : T) :
  heap_only (np_divide_scalar v c).
Proof. unfold np_divide_scalar. repeat heap_only_step. Qed.

Lemma heap_only_broadcast (f : T -> T -> T) (a b : ndarray) :
  heap_only (broadcast f a b).
Proof.
  unfold broadcast.
  destruct (shape a) as [|n [|? ?]]; try apply heap_only_raise;
    destruct (shape b) as [|k [|? ?]]; try apply heap_only_raise.
  repeat heap_only_step.
Qed.

Lemma heap_only_np_max (v : ndarray) : heap_only (np_max (T := T) v).
Proof.
  unfold np_max. apply heap_only_bind; [heap_only_step | intros _].
  apply heap_only_bind; [heap_only_step | intros d].
  destruct d; heap_only_step.
Qed.

Lemma heap_only_power_loop (A : ndarray) (eps : T) (n : nat) :
  forall x, heap_only (power_loop A eps n x).
Proof.
  induction n as [|n IH]; intros x; simpl; [apply heap_only_ret|].
  apply heap_only_bind; [heap_only_step | intros _].
  apply heap_only_bind; [apply heap_only_np_matmul | intros y].
  apply heap_only_bind; [apply heap_only_np_linalg_norm | intros nrm].
  apply heap_only_bind; [apply heap_only_np_divide_scalar | intros x1].
  apply heap_only_bind; [| intros d].
  { unfold np_subtract. apply heap_only_bind; [heap_only_step | intros _].
    apply heap_only_broadcast. }
  apply heap_only_bind; [apply heap_only_np_linalg_norm | intros err].
  apply heap_only_bind; [heap_only_step | intros _].
  apply heap_only_if; [apply heap_only_ret | apply IH].
Qed.

Lemma heap_only_eigen_estimate (A x : ndarray) :
  heap_only (eigen_estimate (T := T) A x).
Proof.
  unfold eigen_estimate.
  apply heap_only_bind; [apply heap_only_np_matmul | intros y].
  apply heap_only_bind; [| intros q].
  { unfold np_divide. apply heap_only_bind; [heap_only_step | intros _].
    apply heap_only_broadcast. }
  apply heap_only_bind; [apply heap_only_np_max | intros e].
  apply heap_only_ret.
Qed.

(** X4.  Only the squeezed shape of a supplied [x0] matters.  An array with
    one axis [n] other than 1 among axes of length 1 (a column (n,1), a row
    (1,n), ...) gives the same result, value or exception, and leaves the
    same heap as the flat array (n,) on the same buffer. *)
Theorem singleton_axes_do_not_matter (A v : ndarray) (eps : T)
    (max_iter : Z) (s : state T) (i j n : nat) :
  n <> 1 -> shape v = repeat 1 i ++ n :: repeat 1 j ->
  fst (power_method A (Some v) eps max_iter s) =
  fst (power_method A (Some (mk_ndarray [n] (base v))) eps max_iter s) /\
  heap (snd (power_method A (Some v) eps max_iter s)) =
  heap (snd (power_method A (Some (mk_ndarray [n] (base v))) eps max_iter s)).
Proof.
  intros Hn Hv.
  destruct (Nat.eq_dec (ndim A) 2) as [H2|H2].
  - rewrite !power_method_unfold by assumption.
    unfold bind at 1 3 5 7. rewrite !run_initial_vector_some. cbn [shape].
    rewrite Hv, squeezed_one_axis by assumption.
    replace (squeezed [n]) with [n]
      by (symmetry; apply (squeezed_one_axis 0 0 n Hn)).
    cbn [length Nat.eqb].
    apply (heap_only_bind _ _
             (heap_only_power_loop A eps (Z.to_nat max_iter) _)
             (heap_only_eigen_estimate A)).
    reflexivity.
  - rewrite !power_method_not_2D by assumption. auto.
Qed.

End Further.

(** ** Binary64: tolerances that are not positive, NaN in the input *)

(** [sqrt(z) < eps] is false when [0 < eps] is: for [eps] zero, negative or
    NaN. *)
Lemma ltb_sqrt_not_positive (z eps : float) :
  PrimFloat.ltb 0%float eps = false ->
  PrimFloat.ltb (PrimFloat.sqrt z) eps = false.
Proof.
  rewrite !ltb_spec, sqrt_spec.
  replace (Prim2SF 0%float) with (S754_zero false) by reflexivity.
  unfold SF64sqrt. pose proof (SFsqrt_sign (Prim2SF z)) as Hs.
  destruct (SFsqrt prec emax (Prim2SF z)) as [sr | sr | | sr mr er];
    destruct (Prim2SF eps) as [se | se | | se me ee]; cbn in *;
    try reflexivity; subst; try discriminate;
    try (destruct se; (reflexivity || discriminate)).
Qed.

(** X5.  With a tolerance that is not positive (zero, negative or NaN: the
    comparison [0 < eps] is false) the test [error < eps] never succeeds,
    because a norm is a square root; on inputs whose shapes agree the loop
    then makes all [max_iter] passes before the call returns. *)
Theorem tolerance_not_positive_never_converges (A : ndarray)
    (x0 : option ndarray) (eps : float) (max_iter : Z) (s : state float)
    (n : nat) :
  shape A = [n; n] -> 0 < n -> fits s n x0 ->
  PrimFloat.ltb 0%float eps = false ->
  exists ev x hx tx,
    power_method A x0 eps max_iter s =
    (inr (ev, x), mk_state (heap s ++ hx) (trace s ++ tx)) /\
    iterations tx = Z.to_nat max_iter /\
    tests tx = repeat false (Z.to_nat max_iter).
Proof.
  intros HA Hn Hfit Heps.
  destruct (power_method_no_break A x0 eps max_iter s n
              (fun s x => length (read s x) = n) HA Hn Hfit)
    as (x & s1 & hx & tx & E & _ & _ & _ & Hit & Ht).
  - intros x st Hx Hv Hl. split.
    + unfold body_test, norm. cbn [ltb sqrt float_Scalar].
      apply ltb_sqrt_not_positive. exact Heps.
    + rewrite read_body_result. apply length_body_next.
  - auto.
  - intros x1 s0 E0.
    destruct (initial_vector_run A x0 s n HA Hfit)
      as (x1' & hx0 & tx0 & E0' & _ & _ & Hl & _).
    rewrite E0 in E0'. injection E0' as Ex Es. subst x1 s0. exact Hl.
  - eexists _, x, hx, tx. split; [exact E|]. split; assumption.
Qed.

(** NaN absorbs the arithmetic of a pass. *)
Lemma add_nan_l (a b : float) :
  PrimFloat.is_nan a = true -> PrimFloat.is_nan (a + b)%float = true.
Proof.
  intros E. apply is_nan_SF. rewrite add_spec, (is_nan_inv _ E). reflexivity.
Qed.

Lemma add_nan_r (a b : float) :
  PrimFloat.is_nan b = true -> PrimFloat.is_nan (a + b)%float = true.
Proof.
  intros E. apply is_nan_SF. rewrite add_spec, (is_nan_inv _ E).
  destruct (Prim2SF a); reflexivity.
Qed.

Lemma mul_nan_r (a b : float) :
  PrimFloat.is_nan b = true -> PrimFloat.is_nan (a * b)%float = true.
Proof.
  intros E. apply is_nan_SF. rewrite mul_spec, (is_nan_inv _ E).
  destruct (Prim2SF a); reflexivity.
Qed.

Lemma div_nan_l (a b : float) :
  PrimFloat.is_nan a = true -> PrimFloat.is_nan (a / b)%float = true.
Proof.
  intros E. apply is_nan_SF. rewrite div_spec, (is_nan_inv _ E). reflexivity.
Qed.

Lemma sub_nan_l (a b : float) :
  PrimFloat.is_nan a = true -> PrimFloat.is_nan (a - b)%float = true.
Proof.
  intros E. apply is_nan_SF. rewrite sub_spec, (is_nan_inv _ E). reflexivity.
Qed.

Lemma sqrt_nan (a : float) :
  PrimFloat.is_nan a = true -> PrimFloat.is_nan (PrimFloat.sqrt a) = true.
Proof.
  intros E. apply is_nan_SF. rewrite sqrt_spec, (is_nan_inv _ E). reflexivity.
Qed.

Lemma ltb_nan_l (a b : float) :
  PrimFloat.is_nan a = true -> PrimFloat.ltb a b = false.
Proof. intros E. rewrite ltb_spec, (is_nan_inv _ E). reflexivity. Qed.

Lemma fold_dot_nan_acc (l : list (float * float)) (acc : float) :
  PrimFloat.is_nan acc = true ->
  PrimFloat.is_nan
    (fold_left (fun a p => add a (mul (fst p) (snd p))) l acc) = true.
Proof.
  revert acc. induction l as [|p l IH]; intros acc E; cbn [fold_left].
  - exact E.
  - apply IH. cbn [add mul float_Scalar]. apply add_nan_l. exact E.
Qed.

Lemma fold_dot_nan (u v : list float) (acc : float) :
  length u = length v ->
  Exists (fun q => PrimFloat.is_nan q = true) v ->
  PrimFloat.is_nan
    (fold_left (fun a p => add a (mul (fst p) (snd p))) (combine u v) acc)
  = true.
Proof.
  intros Hl Hex. revert u acc Hl.
  induction Hex as [b v Hb | b v Hex IH]; intros [|a u] acc Hl;
    try discriminate; cbn [combine fold_left fst snd].
  - apply fold_dot_nan_acc. cbn [add mul float_Scalar].
    apply add_nan_r, mul_nan_r. exact Hb.
  - apply IH. cbn in Hl. lia.
Qed.

Lemma dot_nan (u v : list float) :
  length u = length v ->
  Exists (fun q => PrimFloat.is_nan q = true) v ->
  PrimFloat.is_nan (dot u v) = true.
Proof. intros Hl Hex. unfold dot. apply fold_dot_nan; assumption. Qed.

Lemma norm_nan (y : list float) :
  Exists (fun q => PrimFloat.is_nan q = true) y ->
  PrimFloat.is_nan (norm y) = true.
Proof.
  intros Hex. unfold norm. cbn [sqrt float_Scalar].
  apply sqrt_nan, dot_nan; [reflexivity | exact Hex].
Qed.

Lemma matvec_nan (n : nat) (a x : list float) :
  length a = n * n -> length x = n ->
  Exists (fun q => PrimFloat.is_nan q = true) x ->
  Forall (fun q => PrimFloat.is_nan q = true) (matvec n n a x).
Proof.
  intros Ha Hx Hex. unfold matvec. apply Forall_map, Forall_forall.
  intros i Hi. apply in_seq in Hi. apply dot_nan; [| exact Hex].
  rewrite length_row, Hx; [reflexivity | nia].
Qed.

Lemma scale_div_nan (y : list float) (c : float) :
  Forall (fun q => PrimFloat.is_nan q = true) y ->
  Forall (fun q => PrimFloat.is_nan q = true) (scale_div y c).
Proof.
  intros Hall. unfold scale_div. apply Forall_map.
  apply (Forall_impl _ (fun a Ha => div_nan_l a c Ha) Hall).
Qed.

Lemma zip_with_nan (f : float -> float -> float) (u v : list float) :
  (forall a b, PrimFloat.is_nan a = true -> PrimFloat.is_nan (f a b) = true) ->
  Forall (fun q => PrimFloat.is_nan q = true) u ->
  Forall (fun q => PrimFloat.is_nan q = true) (zip_with f u v).
Proof.
  intros Hf Hall. revert v.
  induction Hall as [|a u Ha Hall IH]; intros [|b v]; cbn; auto.
Qed.

Lemma nan_iterate_pass (A : ndarray) (eps : float) (n k0 : nat)
    (x : ndarray) (s : state float) :
  0 < n -> shape x = [n] -> valid s x -> nan_iterate A n k0 s x ->
  body_test n A x eps s = false /\
  nan_iterate A n k0 (body_state n A x eps s) (body_result s n).
Proof.
  intros Hn Hx Hv (HvA & HlA & Hlx & Hex & _).
  assert (Hy : Forall (fun q => PrimFloat.is_nan q = true)
                 (body_next n A x s)).
  { unfold body_next, body_product. apply scale_div_nan, matvec_nan; auto. }
  split.
  - unfold body_test. cbn [ltb float_Scalar]. apply ltb_nan_l, norm_nan.
    apply Forall_Exists_nonempty.
    + unfold body_diff. rewrite length_zip_with, length_body_next, Hlx. lia.
    + unfold body_diff. apply zip_with_nan; [| exact Hy].
      intros a b. cbn [sub float_Scalar]. apply sub_nan_l.
  - unfold nan_iterate. rewrite read_body_result, length_body_next.
    assert (HvA' : valid (body_state n A x eps s) A).
    { unfold valid, body_state in *. cbn [heap]. rewrite length_app. lia. }
    split; [exact HvA'|].
    unfold body_state at 1. rewrite (read_old s _ _ A HvA).
    repeat split; auto.
    apply Forall_Exists_nonempty; [rewrite length_body_next; lia | exact Hy].
Qed.

(** X6.  NaN in, NaN out, and no early exit.  When a component of the
    supplied [x0] is NaN (shapes agreeing, [A] holding its [n * n]
    elements), every product is NaN, so the test [error < eps] fails on each
    pass: the call makes all [max_iter] passes, raises nothing, and returns
    a NaN eigenvalue, with a vector of NaNs as soon as one pass was made. *)
Theorem nan_in_x0_runs_all_passes (A v : ndarray) (eps : float)
    (max_iter : Z) (s : state float) (n : nat) :
  shape A = [n; n] -> 0 < n -> valid s A -> length (read s A) = n * n ->
  fits s n (Some v) ->
  Exists (fun q => PrimFloat.is_nan q = true) (read s v) ->
  exists ev x hx tx,
    power_method A (Some v) eps max_iter s =
    (inr (ev, x), mk_state (heap s ++ hx) (trace s ++ tx)) /\
    PrimFloat.is_nan ev = true /\
    iterations tx = Z.to_nat max_iter /\
    ((0 < max_iter)%Z ->
     Forall (fun q => PrimFloat.is_nan q = true)
       (read (mk_state (heap s ++ hx) (trace s ++ tx)) x)).
Proof.
  intros HA Hn HvA HlA Hfit Hex.
  destruct (power_method_no_break A (Some v) eps max_iter s n
              (nan_iterate A n (iterations (trace s))) HA Hn Hfit)
    as (x & s1 & hx & tx & E & Hq & Hr & Hi1 & Hit & _).
  - intros x st Hx Hv Hq. apply nan_iterate_pass; assumption.
  - intros x st (_ & _ & Hl & _). exact Hl.
  - intros x1 s0 E0. destruct Hfit as (Hsq & Hv & Hlen).
    rewrite run_initial_vector_some, Hsq in E0. cbn [length Nat.eqb] in E0.
    injection E0 as Ex Es. subst x1 s0.
    unfold nan_iterate, log_state, valid, read in *. cbn [heap trace base].
    repeat split; auto.
    rewrite iterations_app. cbn. lia.
  - destruct Hq as (HvA1 & HlA1 & Hlx & Hex1 & Hall).
    eexists _, x, hx, tx. split; [exact E|]. split; [| split].
    + apply max_all_nan. apply Forall_Exists_nonempty.
      * unfold quotients.
        rewrite length_zip_with, length_matvec, Hlx. lia.
      * unfold quotients. apply zip_with_nan.
        -- intros a b. cbn [div float_Scalar]. apply div_nan_l.
        -- apply matvec_nan; assumption.
    + exact Hit.
    + intros Hpos. rewrite Hr. apply Hall. lia.
Qed.

Lemma quotients_nonempty {T : Type} `{Scalar T} (n : nat) (a x : list T) :
  0 < n -> length x = n -> quotients n a x <> [].
Proof.
  intros Hn Hl E. apply (f_equal (@length T)) in E. unfold quotients in E.
  rewrite length_zip_with, length_matvec, Hl in E. cbn in E. lia.
Qed.

(** ** Binary64: the eigenvalue is the largest quotient *)

(** [<=] on binary64 is a total preorder away from NaN. *)
Lemma SFleb_trans (f1 f2 f3 : spec_float) :
  SFleb f1 f2 = true -> SFleb f2 f3 = true -> SFleb f1 f3 = true.
Proof.
  unfold SFleb, SFcompare.
  destruct f1 as [s1 | s1 | | s1 m1 e1], f2 as [s2 | s2 | | s2 m2 e2],
    f3 as [s3 | s3 | | s3 m3 e3];
    intros H12 H23;
    repeat match goal with s : bool |- _ => destruct s end;
    cbn in *; try discriminate; try reflexivity;
    fold (Pos.compare m1 m2) in *; fold (Pos.compare m2 m3) in *;
    fold (Pos.compare m1 m3) in *;
    destruct (Z.compare_spec e1 e2), (Z.compare_spec e2 e3),
      (Z.compare_spec e1 e3); try lia; try discriminate; try reflexivity;
    destruct (Pos.compare_spec m1 m2), (Pos.compare_spec m2 m3),
      (Pos.compare_spec m1 m3); cbn in *; try lia; try discriminate;
    try reflexivity.
Qed.

Lemma SFleb_total (f1 f2 : spec_float) :
  f1 <> S754_nan -> f2 <> S754_nan ->
  SFleb f1 f2 = false -> SFleb f2 f1 = true.
Proof.
  unfold SFleb, SFcompare.
  destruct f1 as [s1 | s1 | | s1 m1 e1], f2 as [s2 | s2 | | s2 m2 e2];
    intros H1 H2 H12; try congruence;
    repeat match goal with s : bool |- _ => destruct s end;
    cbn in *; try discriminate; try reflexivity;
    fold (Pos.compare m1 m2) in *; fold (Pos.compare m2 m1) in *;
    destruct (Z.compare_spec e1 e2), (Z.compare_spec e2 e1); try lia;
    try discriminate; try reflexivity;
    destruct (Pos.compare_spec m1 m2), (Pos.compare_spec m2 m1);
    cbn in *; try lia; try discriminate; try reflexivity.
Qed.

Lemma SFleb_refl (f : spec_float) : f <> S754_nan -> SFleb f f = true.
Proof.
  intros Hf. unfold SFleb. pose proof (SFeqb_refl_not_nan f Hf) as E.
  unfold SFeqb in E. destruct (SFcompare f f) as [[| |]|]; try discriminate.
  reflexivity.
Qed.

Lemma np_maximum_cases {T : Type} `{Scalar T} (a b : T) :
  np_maximum a b = a \/ np_maximum a b = b.
Proof. unfold np_maximum. destruct (leb b a || isnan a); auto. Qed.

(** [np.max] returns one of the elements. *)
Lemma max_reduce_in {T : Type} `{Scalar T} (v : list T) (a : T) :
  max_reduce a v = a \/ In (max_reduce a v) v.
Proof.
  unfold max_reduce. revert a.
  induction v as [|b v IH]; intros a; cbn [fold_left In]; [auto|].
  destruct (IH (np_maximum a b)) as [E|Hin]; [| auto].
  rewrite E. destruct (np_maximum_cases a b) as [-> | ->]; auto.
Qed.

Lemma max_all_in {T : Type} `{Scalar T} (d : list T) :
  d <> [] -> In (max_all d) d.
Proof.
  intros Hd. destruct d as [|a v]; [congruence|]. unfold max_all.
  cbn [hd tl]. destruct (max_reduce_in v a) as [E|Hin];
    [left; auto | right; auto].
Qed.

Lemma np_maximum_ge (a b : float) :
  isnan a = false -> isnan b = false ->
  PrimFloat.leb a (np_maximum a b) = true /\
  PrimFloat.leb b (np_maximum a b) = true.
Proof.
  intros Ha Hb. unfold np_maximum. cbn [leb isnan float_Scalar] in *.
  rewrite Ha, orb_false_r.
  pose proof (not_nan_SF a Ha) as Hna. pose proof (not_nan_SF b Hb) as Hnb.
  destruct (PrimFloat.leb b a) eqn:Hba.
  - split; [| exact Hba]. rewrite leb_spec. apply SFleb_refl. exact Hna.
  - split.
    + rewrite leb_spec in *. apply SFleb_total; assumption.
    + rewrite leb_spec. apply SFleb_refl. exact Hnb.
Qed.

Lemma max_reduce_ge (v : list float) (a : float) :
  isnan a = false -> Forall (fun q => isnan q = false) v ->
  PrimFloat.leb a (max_reduce a v) = true /\
  forall q, In q v -> PrimFloat.leb q (max_reduce a v) = true.
Proof.
  intros Ha Hv. revert a Ha.
  induction Hv as [|b v Hb Hv IH]; intros a Ha; cbn [In].
  - split; [| tauto]. cbn. rewrite leb_spec.
    apply SFleb_refl, not_nan_SF. exact Ha.
  - change (max_reduce a (b :: v)) with (max_reduce (np_maximum a b) v).
    destruct (IH (np_maximum a b) (np_maximum_not_nan a b Ha Hb))
      as [H1 H2].
    destruct (np_maximum_ge a b Ha Hb) as [Hga Hgb].
    rewrite leb_spec in *. split.
    + apply (SFleb_trans _ _ _ Hga H1).
    + intros q [<-|Hq].
      * rewrite leb_spec. apply (SFleb_trans _ _ _ Hgb H1).
      * apply H2. exact Hq.
Qed.

Lemma max_all_ge (d : list float) :
  Forall (fun q => isnan q = false) d ->
  forall q, In q d -> PrimFloat.leb q (max_all d) = true.
Proof.
  intros Hd. destruct Hd as [|a v Ha Hv]; [intros q []|].
  unfold max_all. cbn [hd tl].
  destruct (max_reduce_ge v a Ha Hv) as [H1 H2].
  intros q [<-|Hq]; auto.
Qed.

(** X7.  In binary64 the eigenvalue returned on inputs whose shapes agree is
    one of the quotients [(A @ x)[i] / x[i]] of the returned vector, and
    when none of the quotients is NaN it is the largest: every quotient is
    [<=] it. *)
Theorem eigenvalue_is_largest_quotient (A : ndarray) (x0 : option ndarray)
    (eps : float) (max_iter : Z) (s : state float) (n : nat) :
  shape A = [n; n] -> 0 < n -> valid s A -> fits s n x0 ->
  exists ev x s',
    power_method A x0 eps max_iter s = (inr (ev, x), s') /\
    In ev (quotients n (read s' A) (read s' x)) /\
    (Forall (fun q => PrimFloat.is_nan q = false)
       (quotients n (read s' A) (read s' x)) ->
     forall q, In q (quotients n (read s' A) (read s' x)) ->
       PrimFloat.leb q ev = true).
Proof.
  intros HA Hn HvA Hfit.
  destruct (power_method_returns A x0 eps max_iter s n HA Hn HvA Hfit)
    as (ev & x & s1 & s' & _ & E & Hev & Hl & _).
  exists ev, x, s'. split; [exact E|]. rewrite Hev. split.
  - apply max_all_in. apply quotients_nonempty; assumption.
  - intros Hnn. apply max_all_ge. exact Hnn.
Qed.

(** ** Leaving the loop before the cap *)

Section Cap.

Context {T : Type} `{Scalar T}.


(** A loop that returned before using its fuel returns the same with more. *)
Lemma power_loop_more_fuel (A : ndarray) (eps : T) (n : nat) :
  shape A = [n; n] ->
  forall (fuel : nat) (x : ndarray) (s : state T) (x' : ndarray)
         (s' : state T),
    shape x = [n] -> valid s x ->
    power_loop A eps fuel x s = (inr x', s') ->
    iterations (trace s') < iterations (trace s) + fuel ->
    forall k, power_loop A eps (fuel + k) x s = (inr x', s').
Proof.
  intros HA. induction fuel as [|fuel IH]; intros x s x' s' Hx Hv E Hlt k.
  - cbn in E. injection E as _ Es. subst s'. lia.
  - cbn [Nat.add].
    rewrite (power_loop_step A x eps (fuel + k) n s HA Hx Hv).
    rewrite (power_loop_step A x eps fuel n s HA Hx Hv) in E.
    destruct (body_test n A x eps s); [exact E|].
    apply IH; [reflexivity | | exact E |].
    + unfold valid, body_state, body_result. cbn. rewrite length_app. cbn.
      lia.
    + unfold body_state. cbn [trace].
      rewrite iterations_app, iterations_body. lia.
Qed.

(** X11.  A cap that was not reached plays no role: when a call on inputs
    whose shapes agree returns after fewer than [max_iter] passes, every
    call with a larger [max_iter] returns the same eigenvalue and vector and
    leaves the same state. *)
Theorem larger_cap_same_result (A : ndarray) (x0 : option ndarray) (eps : T)
    (max_iter max_iter' : Z) (s : state T) (n : nat) :
  shape A = [n; n] -> fits s n x0 ->
  iterations (trace (snd (power_method A x0 eps max_iter s)))
  < iterations (trace s) + Z.to_nat max_iter ->
  (max_iter <= max_iter')%Z ->
  power_method A x0 eps max_iter' s = power_method A x0 eps max_iter s.
Proof.
  intros HA Hfit Hlt Hle.
  assert (H2 : ndim A = 2) by (unfold ndim; rewrite HA; reflexivity).
  destruct (initial_vector_run A x0 s n HA Hfit)
    as (x1 & hx0 & tx0 & E0 & Hs1 & Hv1 & Hl1 & Hi0).
  destruct (power_loop_run A eps n HA (Z.to_nat max_iter) x1 _ Hs1 Hv1 Hl1)
    as (x & hx & tx & E & _).
  cbn [heap trace] in E.
  destruct (power_method_from A x0 eps max_iter s _ _ x1 x H2 E0 E)
    as [_ Erun].
  assert (Hlt' : iterations ((trace s ++ tx0) ++ tx)
                 < iterations (trace s ++ tx0) + Z.to_nat max_iter).
  { rewrite Erun in Hlt.
    destruct (grows_eigen_estimate A x
                (mk_state ((heap s ++ hx0) ++ hx) ((trace s ++ tx0) ++ tx)))
      as (hx2 & tx2 & Es & _).
    rewrite Es in Hlt. cbn [trace] in Hlt.
    rewrite !iterations_app in *. lia. }
  pose proof (power_loop_more_fuel A eps n HA (Z.to_nat max_iter) x1 _ x _
                Hs1 Hv1 E Hlt' (Z.to_nat max_iter' - Z.to_nat max_iter))
    as E'.
  replace (Z.to_nat max_iter + (Z.to_nat max_iter' - Z.to_nat max_iter))
    with (Z.to_nat max_iter') in E' by lia.
  destruct (power_method_from A x0 eps max_iter' s _ _ x1 x H2 E0 E')
    as [_ Erun'].
  rewrite Erun, Erun'. reflexivity.
Qed.

End Cap.

(** ** The further properties at concrete calls *)

Lemma no_pass_returns_view_of_x0_witness :
  power_method A_2x2 (Some x_2) eps_default 0 caller_diag =
  (inr (max_all (quotients 2 (read caller_diag A_2x2) (read caller_diag x_2)),
        mk_ndarray [2] (base x_2)),
   mk_state
     (heap caller_diag ++
      [matvec 2 2 (read caller_diag A_2x2) (read caller_diag x_2);
       quotients 2 (read caller_diag A_2x2) (read caller_diag x_2)])
     (trace caller_diag ++
      [Call_squeeze x_2;
       Call_matmul A_2x2 (mk_ndarray [2] (base x_2));
       Call_divide (mk_ndarray [2] (length (heap caller_diag)))
         (mk_ndarray [2] (base x_2));
       Call_max (mk_ndarray [2] (S (length (heap caller_diag))))])).
Proof.
  apply (no_pass_returns_view_of_x0 A_2x2 x_2 eps_default 0 caller_diag 2);
    [reflexivity | lia | exact fits_caller_diag | lia].
Defined.

Lemma empty_matrix_raises_zero_size_witness :
  exists s',
    power_method (mk_ndarray [0; 0] 0) None eps_default 10000 caller_empty =
    (inl (NumpyValueError ZeroSizeReduction), s') /\
    is_shape_error (NumpyValueError ZeroSizeReduction) = false.
Proof.
  apply (empty_matrix_raises_zero_size (mk_ndarray [0; 0] 0) None eps_default
           10000 caller_empty); [reflexivity | exact I].
Defined.

Lemma one_row_matrix_without_loop_witness :
  exists x s1 s',
    initial_vector (mk_ndarray [1; 3] 0) None caller_row = (inr x, s1) /\
    power_method (mk_ndarray [1; 3] 0) None eps_default 0 caller_row =
    (inr (max_all (row_quotients 3 (read s' (mk_ndarray [1; 3] 0))
                     (read s' x)), x), s') /\
    iterations (trace s') = iterations (trace caller_row).
Proof.
  apply (one_row_matrix_without_loop (mk_ndarray [1; 3] 0) None eps_default 0
           caller_row 3);
    [reflexivity | lia | unfold valid; cbn; lia | exact I | lia].
Defined.

Lemma singleton_axes_do_not_matter_witness :
  fst (power_method A_2x2 (Some (mk_ndarray [2; 1] 1)) eps_default 10000
         caller_diag) =
  fst (power_method A_2x2 (Some (mk_ndarray [2] 1)) eps_default 10000
         caller_diag) /\
  heap (snd (power_method A_2x2 (Some (mk_ndarray [2; 1] 1)) eps_default
               10000 caller_diag)) =
  heap (snd (power_method A_2x2 (Some (mk_ndarray [2] 1)) eps_default 10000
               caller_diag)).
Proof.
  apply (singleton_axes_do_not_matter A_2x2 (mk_ndarray [2; 1] 1) eps_default
           10000 caller_diag 0 1 2); [lia | reflexivity].
Defined.

Lemma tolerance_not_positive_never_converges_witness :
  exists ev x hx tx,
    power_method A_2x2 None 0%float 5 caller_twice =
    (inr (ev, x),
     mk_state (heap caller_twice ++ hx) (trace caller_twice ++ tx)) /\
    iterations tx = Z.to_nat 5 /\
    tests tx = repeat false (Z.to_nat 5).
Proof.
  apply (tolerance_not_positive_never_converges A_2x2 None 0%float 5
           caller_twice 2); [reflexivity | lia | exact I | reflexivity].
Defined.

Lemma fits_caller_nan : fits caller_nan 2 (Some x_2).
Proof. unfold fits, valid. cbn. repeat split; lia. Defined.

Lemma nan_in_x0_runs_all_passes_witness :
  exists ev x hx tx,
    power_method A_2x2 (Some x_2) eps_default 10000 caller_nan =
    (inr (ev, x), mk_state (heap caller_nan ++ hx) (trace caller_nan ++ tx)) /\
    PrimFloat.is_nan ev = true /\
    iterations tx = Z.to_nat 10000 /\
    ((0 < 10000)%Z ->
     Forall (fun q => PrimFloat.is_nan q = true)
       (read (mk_state (heap caller_nan ++ hx) (trace caller_nan ++ tx)) x)).
Proof.
  apply (nan_in_x0_runs_all_passes A_2x2 x_2 eps_default 10000 caller_nan 2);
    [reflexivity | lia | unfold valid; cbn; lia | reflexivity
    | exact fits_caller_nan | left; reflexivity].
Defined.

Lemma eigenvalue_is_largest_quotient_witness :
  exists ev x s',
    power_method A_2x2 (Some x_2) eps_default 10000 caller_sym =
    (inr (ev, x), s') /\
    In ev (quotients 2 (read s' A_2x2) (read s' x)) /\
    (Forall (fun q => PrimFloat.is_nan q = false)
       (quotients 2 (read s' A_2x2) (read s' x)) ->
     forall q, In q (quotients 2 (read s' A_2x2) (read s' x)) ->
       PrimFloat.leb q ev = true).
Proof.
  apply (eigenvalue_is_largest_quotient A_2x2 (Some x_2) eps_default 10000
           caller_sym 2);
    [reflexivity | lia | unfold valid; cbn; lia
    | unfold fits, valid; cbn; repeat split; lia].
Defined.


Lemma larger_cap_same_result_witness :
  power_method A_2x2 None eps_default 20000 caller_twice =
  power_method A_2x2 None eps_default 10000 caller_twice.
Proof.
  apply (larger_cap_same_result A_2x2 None eps_default 10000 20000
           caller_twice 2); [reflexivity | exact I | | lia].
  apply Nat.ltb_lt. vm_compute. reflexivity.
Defined.
